(** * Project Euler 93 (arithmetic expressions): a model of [main.py]

    The program enumerates, for every choice of four digits among 1..9,
    the values of all arithmetic expressions over them, records the
    positive integers reached and returns the digits with the longest run
    1..n.  The Python code computes with [int] as long as no division has
    happened and with binary64 [float] afterwards ([operator.truediv]);
    both are modelled here, the floats by the primitive binary64 numbers
    of the kernel. *)

From Stdlib Require Import ZArith QArith Lia Sorted.
From Stdlib Require Import Floats.PrimFloat Floats.SpecFloat Floats.FloatOps.
From Stdlib Require Import Ascii String DecimalString.
From stdpp Require Import base gmap strings list fin_maps fin_sets.

Local Open Scope Z_scope.

(** ** Python exceptions and results *)

Inductive exn : Set :=
  | ZeroDivisionError
  | OverflowError
  | ValueError
  | KeyError
  | Diverged.
(** [Diverged] is no Python exception: it marks a loop of the model whose
    fuel ran out.  It is shown below never to occur. *)

Inductive result (A : Type) : Type :=
  | Ok (a : A)
  | Raise (e : exn).

Arguments Ok {A} a.
Arguments Raise {A} e.

#[global] Instance result_ret : MRet result := fun _ a => Ok a.

#[global] Instance result_bind : MBind result := fun _ _ k r =>
  match r with
  | Ok a => k a
  | Raise e => Raise e
  end.

(** ** Python numbers: [int] and [float] *)

(** A Python [float] is a binary64 double: the kernel's primitive [float],
    whose operations round to nearest, ties to even.  [Prim2SF] gives the
    sign, mantissa and exponent of a double. *)
Module Float64.

Definition add : float -> float -> float := PrimFloat.add.
Definition sub : float -> float -> float := PrimFloat.sub.
Definition mul : float -> float -> float := PrimFloat.mul.
Definition div : float -> float -> float := PrimFloat.div.

(** The integers CPython converts by a plain cast: they are doubles. *)
Definition small (z : Z) : bool := Z.leb (Z.abs z) 9007199254740992.

(** [float(z)]: the nearest double, ties to even. *)
Definition of_Z (z : Z) : float :=
  if small z then
    match z with
    | Z0 => PrimFloat.zero
    | Zpos p => PrimFloat.of_uint63 (Uint63Axioms.of_Z z)
    | Zneg p => PrimFloat.opp (PrimFloat.of_uint63 (Uint63Axioms.of_Z (Zpos p)))
    end
  else SF2Prim (binary_normalize prec emax z 0 false).

Definition raw (z : Z) : spec_float :=
  match z with
  | Z0 => S754_zero false
  | Zpos p => S754_finite false p 0
  | Zneg p => S754_finite true p 0
  end.

(** [a / b] on two [int]s: the quotient of the two casts when both are
    doubles, else the exact quotient rounded once. *)
Definition div_Z (a b : Z) : float :=
  if small a then
    if small b then div (of_Z a) (of_Z b)
    else SF2Prim (SFdiv prec emax (raw a) (raw b))
  else SF2Prim (SFdiv prec emax (raw a) (raw b)).

Definition is_zero (f : float) : bool := PrimFloat.is_zero f.

Definition is_infinity (f : float) : bool := PrimFloat.is_infinity f.

(** The integer part of a finite double, rounded towards zero. *)
Definition trunc (s : bool) (m : positive) (e : Z) : Z :=
  let a := match e with
           | Z0 => Zpos m
           | Zpos p => Z.shiftl (Zpos m) e
           | Zneg p => Z.shiftr (Zpos m) (Zpos p)
           end in
  if s then Z.opp a else a.

(** Exact comparison of an integer with a double. *)
Definition eqb_Z (z : Z) (f : spec_float) : bool :=
  match f with
  | S754_zero _ => Z.eqb z 0
  | S754_finite s m e =>
      let sm := if s then Zneg m else Zpos m in
      match e with
      | Z0 => Z.eqb z sm
      | Zpos p => Z.eqb z (Z.shiftl sm e)
      | Zneg p => Z.eqb (Z.shiftl z (Zpos p)) sm
      end
  | _ => false
  end.

Definition gtb_zero (f : spec_float) : bool :=
  SFltb (S754_zero false) f.

(** The double as an exact rational (finite values only). *)
Definition to_Q (f : spec_float) : option Q :=
  match f with
  | S754_zero _ => Some (0 # 1)%Q
  | S754_finite s m e =>
      let sm := if s then Zneg m else Zpos m in
      Some match e with
           | Z0 => (sm # 1)%Q
           | Zpos p => (Z.shiftl sm e # 1)%Q
           | Zneg p => (sm # Pos.iter xO xH p)%Q
           end
  | _ => None
  end.

End Float64.

Inductive pyval : Set :=
  | PInt (z : Z)
  | PFloat (f : float).

(** Conversion of an operand to [float], as the mixed-type operators and
    true division do; CPython raises [OverflowError] for an [int] beyond
    the range of doubles. *)
Definition as_float (v : pyval) : result float :=
  match v with
  | PFloat f => Ok f
  | PInt z =>
      let f := Float64.of_Z z in
      if Float64.is_infinity f then Raise OverflowError else Ok f
  end.

Definition arith (fz : Z -> Z -> Z) (ff : float -> float -> float)
    (x y : pyval) : result pyval :=
  match x, y with
  | PInt a, PInt b => Ok (PInt (fz a b))
  | _, _ =>
      fx ← as_float x;
      fy ← as_float y;
      Ok (PFloat (ff fx fy))
  end.

(** The four functions of [ops_all]. *)
Definition add : pyval -> pyval -> result pyval := arith Z.add Float64.add.
Definition mul : pyval -> pyval -> result pyval := arith Z.mul Float64.mul.
Definition sub : pyval -> pyval -> result pyval := arith Z.sub Float64.sub.
Definition truediv (x y : pyval) : result pyval :=
  match x, y with
  | PInt a, PInt b =>
      if Z.eqb b 0 then Raise ZeroDivisionError
      else
        let f := Float64.div_Z a b in
        if Float64.is_infinity f then Raise OverflowError else Ok (PFloat f)
  | _, _ =>
      fx ← as_float x;
      fy ← as_float y;
      if Float64.is_zero fy then Raise ZeroDivisionError
      else Ok (PFloat (Float64.div fx fy))
  end.

(** A number as [int()], [==], [>] and the dictionary look-up see it: an
    integer, or the sign, mantissa and exponent of a double. *)
Inductive number : Set :=
  | NInt (z : Z)
  | NFloat (f : spec_float).

Definition decode (v : pyval) : number :=
  match v with
  | PInt z => NInt z
  | PFloat f => NFloat (Prim2SF f)
  end.

(** [int(v)]: truncation; fails on infinities and NaN. *)
Definition py_int (w : number) : result Z :=
  match w with
  | NInt z => Ok z
  | NFloat (S754_zero _) => Ok 0
  | NFloat (S754_finite s m e) => Ok (Float64.trunc s m e)
  | NFloat (S754_infinity _) => Raise OverflowError
  | NFloat S754_nan => Raise ValueError
  end.

(** [z == v] for an [int] [z]: exact, also against a [float]. *)
Definition int_eqb (z : Z) (w : number) : bool :=
  match w with
  | NInt y => Z.eqb z y
  | NFloat f => Float64.eqb_Z z f
  end.

(** [v > 0] *)
Definition gt_zero (w : number) : bool :=
  match w with
  | NInt z => Z.ltb 0 z
  | NFloat f => Float64.gtb_zero f
  end.

(** ** The pieces of [itertools] the program uses *)

Fixpoint combinations {A : Type} (l : list A) (r : nat) : list (list A) :=
  match l with
  | [] => match r with O => [[]] | S _ => [] end
  | x :: xs =>
      match r with
      | O => [[]]
      | S r' => map (cons x) (combinations xs r') ++ combinations xs r
      end
  end.

(** Every way to take one element out of a list, in order of position. *)
Fixpoint picks {A : Type} (l : list A) : list (A * list A) :=
  match l with
  | [] => []
  | x :: xs => (x, xs) :: map (fun p => (p.1, x :: p.2)) (picks xs)
  end.

Fixpoint permutations_upto {A : Type} (n : nat) (l : list A) : list (list A) :=
  match n with
  | O => [[]]
  | S n' =>
      flat_map (fun p => map (cons p.1) (permutations_upto n' p.2)) (picks l)
  end.

Definition permutations {A : Type} (l : list A) : list (list A) :=
  permutations_upto (length l) l.

(** [product(l, repeat=3)] *)
Definition product3 {A : Type} (l : list A) : list (A * A * A) :=
  flat_map (fun x => flat_map (fun y => map (fun z => (x, y, z)) l) l) l.

(** A [for] loop whose body may raise. *)
Fixpoint for_each {A S : Type} (body : S -> A -> result S) (l : list A) (s : S)
    : result S :=
  match l with
  | [] => Ok s
  | x :: l' => s' ← body s x; for_each body l' s'
  end.

(** ** Operators, shapes and the target table *)

Inductive operator : Set := op_add | op_mul | op_sub | op_truediv.

Definition call (o : operator) : pyval -> pyval -> result pyval :=
  match o with
  | op_add => add
  | op_mul => mul
  | op_sub => sub
  | op_truediv => truediv
  end.

Definition ops_all : list operator := [op_add; op_mul; op_sub; op_truediv].

Definition op_strs (o : operator) : string :=
  match o with
  | op_add => "+"
  | op_mul => "*"
  | op_sub => "-"
  | op_truediv => "/"
  end.

(** [str(z)] *)
Definition str (z : Z) : string := NilZero.string_of_int (Z.to_int z).

(** The five hard-coded parenthesisations, in the order of the source. *)
Inductive shape : Set := shape1 | shape2 | shape3 | shape4 | shape5.

Definition shapes : list shape := [shape1; shape2; shape3; shape4; shape5].

Section Instance.
Variables (a b c d : Z) (op1 op2 op3 : operator).

Definition evaluate (sh : shape) : result pyval :=
  match sh with
  | shape1 =>
      x ← call op1 (PInt a) (PInt b);
      y ← call op2 x (PInt c);
      call op3 y (PInt d)
  | shape2 =>
      x ← call op1 (PInt a) (PInt b);
      y ← call op3 (PInt c) (PInt d);
      call op2 x y
  | shape3 =>
      x ← call op2 (PInt b) (PInt c);
      y ← call op1 (PInt a) x;
      call op3 y (PInt d)
  | shape4 =>
      x ← call op2 (PInt b) (PInt c);
      y ← call op3 x (PInt d);
      call op1 (PInt a) y
  | shape5 =>
      x ← call op3 (PInt c) (PInt d);
      y ← call op2 (PInt b) x;
      call op1 (PInt a) y
  end.

Definition format (sh : shape) : string :=
  let sa := str a in let sb := str b in let sc := str c in let sd := str d in
  let o1 := op_strs op1 in let o2 := op_strs op2 in let o3 := op_strs op3 in
  match sh with
  | shape1 =>
      "((" +:+ sa +:+ " " +:+ o1 +:+ " " +:+ sb +:+ ") " +:+ o2 +:+ " "
        +:+ sc +:+ ") " +:+ o3 +:+ " " +:+ sd
  | shape2 =>
      "(" +:+ sa +:+ " " +:+ o1 +:+ " " +:+ sb +:+ ") " +:+ o2 +:+ " ("
        +:+ sc +:+ " " +:+ o3 +:+ " " +:+ sd +:+ ")"
  | shape3 =>
      "(" +:+ sa +:+ " " +:+ o1 +:+ " (" +:+ sb +:+ " " +:+ o2 +:+ " "
        +:+ sc +:+ ")) " +:+ o3 +:+ " " +:+ sd
  | shape4 =>
      sa +:+ " " +:+ o1 +:+ " ((" +:+ sb +:+ " " +:+ o2 +:+ " " +:+ sc
        +:+ ") " +:+ o3 +:+ " " +:+ sd +:+ ")"
  | shape5 =>
      sa +:+ " " +:+ o1 +:+ " (" +:+ sb +:+ " " +:+ o2 +:+ " (" +:+ sc
        +:+ " " +:+ o3 +:+ " " +:+ sd +:+ "))"
  end.
End Instance.

(** [v in tbl] for a dictionary with [int] keys: a [float] finds the key it
    is equal to, if there is one. *)
Definition contains (tbl : gmap Z string) (w : number) : bool :=
  match w with
  | NInt z => bool_decide (is_Some (tbl !! z))
  | NFloat (S754_zero _) => bool_decide (is_Some (tbl !! 0))
  | NFloat (S754_finite s m e) =>
      let k := Float64.trunc s m e in
      if Float64.eqb_Z k (S754_finite s m e)
      then bool_decide (is_Some (tbl !! k))
      else false
  | NFloat _ => false
  end.

(** The body of one [try] block once [target] has been computed. *)
Definition record (tbl : gmap Z string) (target : pyval)
    (a b c d : Z) (op1 op2 op3 : operator) (sh : shape)
    : result (gmap Z string) :=
  let w := decode target in
  if contains tbl w then Ok tbl
  else
    k ← py_int w;
    if int_eqb k w then
      if gt_zero w
      then Ok (<[k := format a b c d op1 op2 op3 sh]> tbl)
      else Ok tbl
    else Ok tbl.

(** One [try ... except ZeroDivisionError: pass] block. *)
Definition attempt (a b c d : Z) (op1 op2 op3 : operator)
    (tbl : gmap Z string) (sh : shape) : result (gmap Z string) :=
  match (target ← evaluate a b c d op1 op2 op3 sh;
         record tbl target a b c d op1 op2 op3 sh) with
  | Raise ZeroDivisionError => Ok tbl
  | r => r
  end.

(** The two inner loops for one digit set: the table it ends with. *)
Definition targets_by_expression (digit_set : list Z) : result (gmap Z string) :=
  for_each (fun tbl p =>
    match p with
    | [a; b; c; d] =>
        for_each (fun tbl '(op1, op2, op3) =>
          for_each (attempt a b c d op1 op2 op3) shapes tbl)
          (product3 ops_all) tbl
    | _ => Raise ValueError
    end) (permutations digit_set) ∅.

(** [while t in tbl: t += 1], with fuel. *)
Fixpoint while_in (fuel : nat) (tbl : gmap Z string) (t : Z) : result Z :=
  match fuel with
  | O => Raise Diverged
  | S fuel' =>
      if bool_decide (is_Some (tbl !! t)) then while_in fuel' tbl (t + 1)
      else Ok t
  end.

Definition chain_length (tbl : gmap Z string) : result Z :=
  t ← while_in (S (size tbl)) tbl 1;
  Ok (t - 1).

(** [[tbl[i+1] for i in range(t)]] *)
Definition expressions_upto (tbl : gmap Z string) (t : Z) : result (list string) :=
  for_each (fun acc i =>
    match tbl !! (i + 1) with
    | Some e => Ok (acc ++ [e])
    | None => Raise KeyError
    end) (seqZ 0 t) [].

Definition best : Type := list Z * Z * list string.

(** The "update best" step at the end of the outer loop body. *)
Definition update_best (bst : best) (digit_set : list Z) (tbl : gmap Z string)
    : result best :=
  t ← chain_length tbl;
  if Z.ltb bst.1.2 t then
    es ← expressions_upto tbl t;
    Ok (digit_set, t, es)
  else Ok bst.

Definition digits_all : list Z := map (fun i => i + 1) (seqZ 0 9).

Definition search (sets : list (list Z)) (bst : best) : result best :=
  for_each (fun bst digit_set =>
    tbl ← targets_by_expression digit_set;
    update_best bst digit_set tbl) sets bst.

Definition main (_ : unit) : result best :=
  search (combinations digits_all 4) ([0; 0; 0; 0], 0, []).

(** ** What a run of the program brings with it

    [main] reads no input, no clock and no random source, and it never
    iterates over a dict or a set.  What it does use, and what differs from
    one run of the interpreter to the next, is the identity of the four
    function objects [add], [mul], [sub] and [truediv]: they are the keys of
    [op_strs], and a dict finds a function object by its identity.  A run
    gives every operator its identity. *)
Definition identities : Type := operator -> Z.

(** The dict [{add: '+', mul: '*', sub: '-', truediv: '/'}]: the entries are
    stored one after the other, a later one replacing an earlier one that
    has the same key. *)
Definition op_strs_of (ids : identities) : gmap Z string :=
  <[ids op_truediv := "/"]> (<[ids op_sub := "-"]>
    (<[ids op_mul := "*"]> (<[ids op_add := "+"]> ∅))).

(** [op_strs[o]] *)
Definition op_str (ids : identities) (o : operator) : result string :=
  match op_strs_of ids !! ids o with
  | Some s => Ok s
  | None => Raise KeyError
  end.

(** The five format strings, filled in. *)
Definition render (sa sb sc sd o1 o2 o3 : string) (sh : shape) : string :=
  match sh with
  | shape1 =>
      "((" +:+ sa +:+ " " +:+ o1 +:+ " " +:+ sb +:+ ") " +:+ o2 +:+ " "
        +:+ sc +:+ ") " +:+ o3 +:+ " " +:+ sd
  | shape2 =>
      "(" +:+ sa +:+ " " +:+ o1 +:+ " " +:+ sb +:+ ") " +:+ o2 +:+ " ("
        +:+ sc +:+ " " +:+ o3 +:+ " " +:+ sd +:+ ")"
  | shape3 =>
      "(" +:+ sa +:+ " " +:+ o1 +:+ " (" +:+ sb +:+ " " +:+ o2 +:+ " "
        +:+ sc +:+ ")) " +:+ o3 +:+ " " +:+ sd
  | shape4 =>
      sa +:+ " " +:+ o1 +:+ " ((" +:+ sb +:+ " " +:+ o2 +:+ " " +:+ sc
        +:+ ") " +:+ o3 +:+ " " +:+ sd +:+ ")"
  | shape5 =>
      sa +:+ " " +:+ o1 +:+ " (" +:+ sb +:+ " " +:+ o2 +:+ " (" +:+ sc
        +:+ " " +:+ o3 +:+ " " +:+ sd +:+ "))"
  end.

(** ['...'.format(a=a, b=b, c=c, d=d, op1=op_strs[op1], op2=op_strs[op2],
    op3=op_strs[op3])]: the three look-ups come first, in this order. *)
Definition format_of (ids : identities) (a b c d : Z) (op1 op2 op3 : operator)
    (sh : shape) : result string :=
  o1 ← op_str ids op1;
  o2 ← op_str ids op2;
  o3 ← op_str ids op3;
  Ok (render (str a) (str b) (str c) (str d) o1 o2 o3 sh).

(** The body of a [try] block: the text is made only when the test has
    passed. *)
Definition record_of (ids : identities) (tbl : gmap Z string) (target : pyval)
    (a b c d : Z) (op1 op2 op3 : operator) (sh : shape)
    : result (gmap Z string) :=
  let w := decode target in
  if contains tbl w then Ok tbl
  else
    k ← py_int w;
    if int_eqb k w then
      if gt_zero w
      then e ← format_of ids a b c d op1 op2 op3 sh; Ok (<[k := e]> tbl)
      else Ok tbl
    else Ok tbl.

Definition attempt_of (ids : identities) (a b c d : Z) (op1 op2 op3 : operator)
    (tbl : gmap Z string) (sh : shape) : result (gmap Z string) :=
  match (target ← evaluate a b c d op1 op2 op3 sh;
         record_of ids tbl target a b c d op1 op2 op3 sh) with
  | Raise ZeroDivisionError => Ok tbl
  | r => r
  end.

Definition targets_by_expression_of (ids : identities) (digit_set : list Z)
    : result (gmap Z string) :=
  for_each (fun tbl p =>
    match p with
    | [a; b; c; d] =>
        for_each (fun tbl '(op1, op2, op3) =>
          for_each (attempt_of ids a b c d op1 op2 op3) shapes tbl)
          (product3 ops_all) tbl
    | _ => Raise ValueError
    end) (permutations digit_set) ∅.

Definition search_of (ids : identities) (sets : list (list Z)) (bst : best)
    : result best :=
  for_each (fun bst digit_set =>
    tbl ← targets_by_expression_of ids digit_set;
    update_best bst digit_set tbl) sets bst.

(** [main()] in a run. *)
Definition main_of (ids : identities) : result best :=
  search_of ids (combinations digits_all 4) ([0; 0; 0; 0], 0, []).

(** ** The report printed under [__main__] *)

(** ['{:2d}'.format(z)]: right-aligned in a field of two. *)
Definition pad2 (z : Z) : string :=
  let s := str z in
  if Nat.ltb (String.length s) 2 then " " +:+ s else s.

(** [' < '.join(map(str, l))] *)
Fixpoint join_lt (l : list Z) : string :=
  match l with
  | [] => ""
  | [x] => str x
  | x :: l' => str x +:+ " < " +:+ join_lt l'
  end.

(** [enumerate(l)], counting from [i]. *)
Fixpoint enumerate (i : Z) (l : list string) : list (Z * string) :=
  match l with
  | [] => []
  | e :: l' => (i, e) :: enumerate (i + 1) l'
  end.

Definition report (r : best) : list string :=
  let '(digit_choosing, greatest_consecutive_target, arithmetic_expressions) := r in
  [ "Set of 4 digits producing longest consecutive chain of arithmetic expressions targets:";
    "  digits = " +:+ join_lt digit_choosing;
    "Greatest consecutive value reached (1 to `n`):";
    "  n = " +:+ str greatest_consecutive_target;
    "Expressions producing targets:" ]
  ++ map (fun p => "  " +:+ pad2 (p.1 + 1) +:+ " = " +:+ p.2)
       (enumerate 0 arithmetic_expressions).

(** ** Reading an expression back: syntax, exact value, parser *)

Inductive expr : Set :=
  | Num (n : Z)
  | Bin (o : operator) (l r : expr).

(** The tree each shape stands for. *)
Definition tree (a b c d : Z) (op1 op2 op3 : operator) (sh : shape) : expr :=
  match sh with
  | shape1 => Bin op3 (Bin op2 (Bin op1 (Num a) (Num b)) (Num c)) (Num d)
  | shape2 => Bin op2 (Bin op1 (Num a) (Num b)) (Bin op3 (Num c) (Num d))
  | shape3 => Bin op3 (Bin op1 (Num a) (Bin op2 (Num b) (Num c))) (Num d)
  | shape4 => Bin op1 (Num a) (Bin op3 (Bin op2 (Num b) (Num c)) (Num d))
  | shape5 => Bin op1 (Num a) (Bin op2 (Num b) (Bin op3 (Num c) (Num d)))
  end.

Fixpoint leaves (e : expr) : list Z :=
  match e with
  | Num n => [n]
  | Bin _ l r => leaves l ++ leaves r
  end.

(** Exact rational arithmetic; [None] is a division by zero. *)
Definition exact_op (o : operator) (x y : Q) : option Q :=
  match o with
  | op_add => Some (Qred (x + y))
  | op_mul => Some (Qred (x * y))
  | op_sub => Some (Qred (x - y))
  | op_truediv => if Qeq_bool y 0 then None else Some (Qred (x / y))
  end.

Fixpoint exact (e : expr) : option Q :=
  match e with
  | Num n => Some (inject_Z n)
  | Bin o l r =>
      match exact l, exact r with
      | Some x, Some y => exact_op o x y
      | _, _ => None
      end
  end.

(** The exact value is the positive integer [k]. *)
Definition exactly (e : expr) (k : Z) : bool :=
  match exact e with
  | Some q => Z.eqb (Qnum q) k && Pos.eqb (Qden q) 1
  | None => false
  end.

Inductive sym : Set :=
  | Digit (n : Z)
  | Space
  | Open
  | Close
  | Op (o : operator)
  | Bad.

Definition classify (c : ascii) : sym :=
  match c with
  | "0" => Digit 0 | "1" => Digit 1 | "2" => Digit 2 | "3" => Digit 3
  | "4" => Digit 4 | "5" => Digit 5 | "6" => Digit 6 | "7" => Digit 7
  | "8" => Digit 8 | "9" => Digit 9
  | " " => Space | "(" => Open | ")" => Close
  | "+" => Op op_add | "*" => Op op_mul | "-" => Op op_sub
  | "/" => Op op_truediv
  | _ => Bad
  end%char.

Inductive token : Set :=
  | TNum (n : Z)
  | TOpen
  | TClose
  | TOp (o : operator).

Definition flush (cur : option Z) (ts : list token) : list token :=
  match cur with
  | Some n => TNum n :: ts
  | None => ts
  end.

(** Tokens of a line; adjacent digits form one number, held in [cur] until
    the next character that is not a digit. *)
Fixpoint lex (cur : option Z) (s : list sym) : option (list token) :=
  match s with
  | [] => Some (flush cur [])
  | Digit n :: s' =>
      lex (Some match cur with Some m => 10 * m + n | None => n end) s'
  | Space :: s' => flush cur <$> lex None s'
  | Open :: s' => (fun ts => flush cur (TOpen :: ts)) <$> lex None s'
  | Close :: s' => (fun ts => flush cur (TClose :: ts)) <$> lex None s'
  | Op o :: s' => (fun ts => flush cur (TOp o :: ts)) <$> lex None s'
  | Bad :: _ => None
  end.

(** An operand: a number, or a bracketed [operand operator operand]. *)
Fixpoint parse_atom (fuel : nat) (ts : list token) : option (expr * list token) :=
  match fuel with
  | O => None
  | S fuel' =>
      match ts with
      | TNum n :: rest => Some (Num n, rest)
      | TOpen :: rest =>
          match parse_atom fuel' rest with
          | Some (l, TOp o :: rest1) =>
              match parse_atom fuel' rest1 with
              | Some (r, TClose :: rest2) => Some (Bin o l r, rest2)
              | _ => None
              end
          | _ => None
          end
      | _ => None
      end
  end.

Definition syms_of (s : string) : list sym :=
  map classify (list_ascii_of_string s).

(** A line is [operand operator operand], with nothing left over. *)
Definition parse (s : string) : option expr :=
  match lex None (syms_of s) with
  | Some ts =>
      match parse_atom (length ts) ts with
      | Some (l, TOp o :: rest1) =>
          match parse_atom (length ts) rest1 with
          | Some (r, []) => Some (Bin o l r)
          | _ => None
          end
      | _ => None
      end
  | None => None
  end.

(** ** The search space, one instance at a time *)

Record inst : Set := Inst {
  i_a : Z; i_b : Z; i_c : Z; i_d : Z;
  i_op1 : operator; i_op2 : operator; i_op3 : operator;
  i_shape : shape
}.

Definition inst_evaluate (i : inst) : result pyval :=
  evaluate (i_a i) (i_b i) (i_c i) (i_d i) (i_op1 i) (i_op2 i) (i_op3 i) (i_shape i).

Definition inst_format (i : inst) : string :=
  format (i_a i) (i_b i) (i_c i) (i_d i) (i_op1 i) (i_op2 i) (i_op3 i) (i_shape i).

Definition inst_tree (i : inst) : expr :=
  tree (i_a i) (i_b i) (i_c i) (i_d i) (i_op1 i) (i_op2 i) (i_op3 i) (i_shape i).

Definition inst_attempt (tbl : gmap Z string) (i : inst) : result (gmap Z string) :=
  attempt (i_a i) (i_b i) (i_c i) (i_d i) (i_op1 i) (i_op2 i) (i_op3 i) tbl (i_shape i).

(** The instances of one permutation, and of a digit set, in the order the
    loops visit them; a permutation that is no 4-tuple has none. *)
Definition instances_of (p : list Z) : list inst :=
  match p with
  | [a; b; c; d] =>
      flat_map (fun o => map (Inst a b c d o.1.1 o.1.2 o.2) shapes)
        (product3 ops_all)
  | _ => []
  end.

Definition instances (digit_set : list Z) : list inst :=
  flat_map instances_of (permutations digit_set).

(** The test of the [if] in a [try] block, apart from the look-up: the key
    under which a computed value would be recorded. *)
Definition number_key (w : number) : option Z :=
  match py_int w with
  | Ok k => if int_eqb k w then if gt_zero w then Some k else None else None
  | Raise _ => None
  end.

Definition key_of (v : pyval) : option Z := number_key (decode v).

Definition hit (i : inst) : option Z :=
  match inst_evaluate i with
  | Ok v => key_of v
  | Raise _ => None
  end.

(** What a [try] block does to the table when it does not abort the
    program. *)
Definition step (tbl : gmap Z string) (i : inst) : gmap Z string :=
  match hit i with
  | Some k =>
      match tbl !! k with
      | Some _ => tbl
      | None => <[k := inst_format i]> tbl
      end
  | None => tbl
  end.

(** The instance raises nothing but [ZeroDivisionError]. *)
Definition benign (i : inst) : bool :=
  match inst_evaluate i with
  | Ok v => match py_int (decode v) with Ok _ => true | Raise _ => false end
  | Raise ZeroDivisionError => true
  | Raise _ => false
  end.

(** The chain length of a digit set. *)
Definition run_length (digit_set : list Z) : result Z :=
  tbl ← targets_by_expression digit_set;
  chain_length tbl.

(** The instance accepts a value only if the expression, read exactly, has
    that value. *)
Definition sound (i : inst) : bool :=
  match hit i with
  | Some k => exactly (inst_tree i) k
  | None => true
  end.

Definition no_division (i : inst) : bool :=
  match i_op1 i, i_op2 i, i_op3 i with
  | op_truediv, _, _ | _, op_truediv, _ | _, _, op_truediv => false
  | _, _, _ => true
  end.

(** [sound], asked only where a division makes the program leave [int]. *)
Definition sound_if_division (i : inst) : bool :=
  if no_division i then true else sound i.

(** ** The result of the search *)

Definition expected_expressions : list string :=
  [ "((1 + 2) + 5) / 8"; "((1 * 2) * 5) - 8"; "(1 + (2 * 5)) - 8";
    "((1 + 5) * 2) - 8"; "((1 * 2) - 5) + 8"; "((1 + 2) - 5) + 8";
    "((1 + 2) * 5) - 8"; "((1 - 5) + 8) * 2"; "(1 + 2) * (8 - 5)";
    "(1 + 5) + (8 / 2)"; "((1 * 2) * 8) - 5"; "((1 - 2) + 5) + 8";
    "((1 + 8) * 2) - 5"; "((2 - 1) + 5) + 8"; "((1 * 2) + 5) + 8";
    "((1 + 2) + 5) + 8"; "((2 * 5) - 1) + 8"; "((1 * 2) * 5) + 8";
    "(1 + (2 * 5)) + 8"; "((1 / 2) * 5) * 8"; "((1 * 2) * 8) + 5";
    "(1 + (2 * 8)) + 5"; "((1 + 2) * 5) + 8"; "((1 + 5) / 2) * 8";
    "1 - ((2 - 5) * 8)"; "(1 * 2) * (5 + 8)"; "1 + (2 * (5 + 8))";
    "(1 + (5 / 2)) * 8"; "((1 + 2) * 8) + 5"; "(1 * 5) * (8 - 2)";
    "1 - ((2 - 8) * 5)"; "((1 - 2) + 5) * 8"; "(5 * (8 - 1)) - 2";
    "2 - ((1 - 5) * 8)"; "((1 - 2) + 8) * 5"; "(1 + 5) * (8 - 2)";
    "2 - ((1 - 8) * 5)"; "((1 * 5) * 8) - 2"; "(1 + 2) * (5 + 8)";
    "((2 - 1) * 5) * 8"; "(2 - 1) + (5 * 8)"; "(1 * 2) + (5 * 8)";
    "(1 + 2) + (5 * 8)"; "((1 / 2) + 5) * 8"; "((2 - 1) + 8) * 5";
    "((1 + 5) * 8) - 2"; "((1 + 8) * 5) + 2"; "((2 - 1) + 5) * 8";
    "(2 + 5) * (8 - 1)"; "((1 * 2) + 8) * 5"; "1 + ((2 + 8) * 5)" ].

Definition expected : best := ([1; 2; 5; 8], 51, expected_expressions).

(** What the program prints for [expected]. *)
Definition expected_report : list string :=
  [ "Set of 4 digits producing longest consecutive chain of arithmetic expressions targets:";
    "  digits = 1 < 2 < 5 < 8";
    "Greatest consecutive value reached (1 to `n`):";
    "  n = 51";
    "Expressions producing targets:";
    "   1 = ((1 + 2) + 5) / 8"; "   2 = ((1 * 2) * 5) - 8";
    "   3 = (1 + (2 * 5)) - 8"; "   4 = ((1 + 5) * 2) - 8";
    "   5 = ((1 * 2) - 5) + 8"; "   6 = ((1 + 2) - 5) + 8";
    "   7 = ((1 + 2) * 5) - 8"; "   8 = ((1 - 5) + 8) * 2";
    "   9 = (1 + 2) * (8 - 5)"; "  10 = (1 + 5) + (8 / 2)";
    "  11 = ((1 * 2) * 8) - 5"; "  12 = ((1 - 2) + 5) + 8";
    "  13 = ((1 + 8) * 2) - 5"; "  14 = ((2 - 1) + 5) + 8";
    "  15 = ((1 * 2) + 5) + 8"; "  16 = ((1 + 2) + 5) + 8";
    "  17 = ((2 * 5) - 1) + 8"; "  18 = ((1 * 2) * 5) + 8";
    "  19 = (1 + (2 * 5)) + 8"; "  20 = ((1 / 2) * 5) * 8";
    "  21 = ((1 * 2) * 8) + 5"; "  22 = (1 + (2 * 8)) + 5";
    "  23 = ((1 + 2) * 5) + 8"; "  24 = ((1 + 5) / 2) * 8";
    "  25 = 1 - ((2 - 5) * 8)"; "  26 = (1 * 2) * (5 + 8)";
    "  27 = 1 + (2 * (5 + 8))"; "  28 = (1 + (5 / 2)) * 8";
    "  29 = ((1 + 2) * 8) + 5"; "  30 = (1 * 5) * (8 - 2)";
    "  31 = 1 - ((2 - 8) * 5)"; "  32 = ((1 - 2) + 5) * 8";
    "  33 = (5 * (8 - 1)) - 2"; "  34 = 2 - ((1 - 5) * 8)";
    "  35 = ((1 - 2) + 8) * 5"; "  36 = (1 + 5) * (8 - 2)";
    "  37 = 2 - ((1 - 8) * 5)"; "  38 = ((1 * 5) * 8) - 2";
    "  39 = (1 + 2) * (5 + 8)"; "  40 = ((2 - 1) * 5) * 8";
    "  41 = (2 - 1) + (5 * 8)"; "  42 = (1 * 2) + (5 * 8)";
    "  43 = (1 + 2) + (5 * 8)"; "  44 = ((1 / 2) + 5) * 8";
    "  45 = ((2 - 1) + 8) * 5"; "  46 = ((1 + 5) * 8) - 2";
    "  47 = ((1 + 8) * 5) + 2"; "  48 = ((2 - 1) + 5) * 8";
    "  49 = (2 + 5) * (8 - 1)"; "  50 = ((1 * 2) + 8) * 5";
    "  51 = 1 + ((2 + 8) * 5)" ].

(** * Properties *)

(** ** Two facts by evaluation of the whole search

    The result of [main], and that no instance with a division is accepted
    under a key that is not its exact value. *)

Lemma main_value : main tt = Ok expected.
Proof. vm_compute. reflexivity. Qed.

Lemma search_space_sound :
  forallb (fun ds => forallb sound_if_division (instances ds))
    (combinations digits_all 4) = true.
Proof. vm_compute. reflexivity. Qed.

(** Two thirds: 6004799503160661 / 2^53, the double Python prints as
    0.6666666666666666; it is what the specification of binary64 division
    gives, and the short conversion of 2 is the rounded one. *)
Example two_thirds :
  exists f, truediv (PInt 2) (PInt 3) = Ok (PFloat f) /\
    Prim2SF f = S754_finite false 6004799503160661 (-53) /\
    Prim2SF f = SFdiv prec emax (Float64.raw 2) (Float64.raw 3) /\
    Float64.of_Z 2 = SF2Prim (binary_normalize prec emax 2 0 false).
Proof. eexists. repeat split; vm_compute; reflexivity. Qed.


(** ** Loops *)

Lemma for_each_app {A S : Type} (body : S -> A -> result S) (l1 l2 : list A) (s : S) :
  for_each body (l1 ++ l2) s = (s' ← for_each body l1 s; for_each body l2 s').
Proof.
  revert s. induction l1 as [|x l1 IH]; intros s; simpl; [reflexivity|].
  destruct (body s x) as [s1|e]; simpl; [apply IH | reflexivity].
Qed.

Lemma for_each_flat_map {A B S : Type} (body : S -> B -> result S)
    (f : A -> list B) (l : list A) (s : S) :
  for_each body (flat_map f l) s = for_each (fun s x => for_each body (f x) s) l s.
Proof.
  revert s. induction l as [|x l IH]; intros s; simpl; [reflexivity|].
  rewrite for_each_app.
  destruct (for_each body (f x) s) as [s1|e]; simpl; [apply IH | reflexivity].
Qed.

Lemma for_each_map {A B S : Type} (body : S -> B -> result S)
    (f : A -> B) (l : list A) (s : S) :
  for_each body (map f l) s = for_each (fun s x => body s (f x)) l s.
Proof.
  revert s. induction l as [|x l IH]; intros s; simpl; [reflexivity|].
  destruct (body s (f x)) as [s1|e]; simpl; [apply IH | reflexivity].
Qed.

Lemma for_each_ext {A S : Type} (f g : S -> A -> result S) (l : list A) (s : S) :
  (forall s x, x ∈ l -> f s x = g s x) ->
  for_each f l s = for_each g l s.
Proof.
  revert s. induction l as [|x l IH]; intros s H; simpl; [reflexivity|].
  rewrite H by apply list_elem_of_here.
  destruct (g s x) as [s1|e]; simpl; [|reflexivity].
  apply IH. intros s' y Hy. apply H. by apply list_elem_of_further.
Qed.

(** A loop that ends normally ran its body normally on every element. *)
Lemma for_each_ok_body {A S : Type} (body : S -> A -> result S) (l : list A) (s s' : S) :
  for_each body l s = Ok s' ->
  forall x, x ∈ l -> exists s1 s2, body s1 x = Ok s2.
Proof.
  revert s. induction l as [|y l IH]; intros s H x Hx.
  - by apply elem_of_nil in Hx.
  - simpl in H. destruct (body s y) as [s1|e] eqn:Hb; simpl in H; [|discriminate].
    apply elem_of_cons in Hx as [->|Hx]; [eauto | eapply IH; eauto].
Qed.

(** ** The scan for the chain length *)

Lemma while_in_ok (fuel : nat) (tbl : gmap Z string) (t n : Z) :
  while_in fuel tbl t = Ok n ->
  t <= n /\ (forall i, t <= i < n -> is_Some (tbl !! i)) /\ tbl !! n = None.
Proof.
  revert t. induction fuel as [|fuel IH]; intros t H; simpl in H; [discriminate|].
  case_bool_decide as Ht.
  - apply IH in H as (Hle & Hall & Hn). split; [lia|]. split; [|exact Hn].
    intros i Hi. destruct (decide (i = t)) as [->|]; [exact Ht|]. apply Hall. lia.
  - injection H as <-. split; [lia|]. split; [intros i Hi; lia|].
    by apply eq_None_not_Some.
Qed.

Lemma while_in_raise (fuel : nat) (tbl : gmap Z string) (t : Z) (e : exn) :
  while_in fuel tbl t = Raise e ->
  e = Diverged /\ forall i, t <= i < t + Z.of_nat fuel -> is_Some (tbl !! i).
Proof.
  revert t. induction fuel as [|fuel IH]; intros t H; simpl in H.
  - injection H as <-. split; [reflexivity|]. intros i Hi. lia.
  - case_bool_decide as Ht; [|discriminate].
    apply IH in H as [-> Hall]. split; [reflexivity|].
    intros i Hi. destruct (decide (i = t)) as [->|]; [exact Ht|]. apply Hall. lia.
Qed.

(** More consecutive keys than the table has entries cannot all be keys. *)
Lemma keys_bounded (tbl : gmap Z string) (t : Z) (n : nat) :
  (forall i, t <= i < t + Z.of_nat n -> is_Some (tbl !! i)) ->
  (n <= size tbl)%nat.
Proof.
  intros H.
  assert (Hsub : (list_to_set (seqZ t (Z.of_nat n)) : gset Z) ⊆ dom tbl).
  { intros i Hi. apply elem_of_list_to_set, elem_of_seqZ in Hi.
    apply elem_of_dom, H. lia. }
  apply subseteq_size in Hsub.
  rewrite size_dom, size_list_to_set, length_seqZ in Hsub by apply NoDup_seqZ.
  lia.
Qed.

Lemma while_in_terminates (tbl : gmap Z string) (t : Z) :
  exists n, while_in (S (size tbl)) tbl t = Ok n.
Proof.
  destruct (while_in (S (size tbl)) tbl t) as [n|e] eqn:H; [eauto|].
  apply while_in_raise in H as [_ H]. apply keys_bounded in H. lia.
Qed.

(** C4: for every target table the scan ends, and the chain length [n] it
    yields is the count of consecutive keys from 1: every integer of 1..n is
    a key, n+1 is not, and n is 0 when 1 is not a key. *)
Theorem chain_length_spec (tbl : gmap Z string) :
  exists n, chain_length tbl = Ok n /\
    0 <= n /\
    (forall i, 1 <= i <= n -> is_Some (tbl !! i)) /\
    tbl !! (n + 1) = None /\
    (tbl !! 1 = None -> n = 0).
Proof.
  unfold chain_length.
  destruct (while_in_terminates tbl 1) as [t Ht]. rewrite Ht. simpl.
  apply while_in_ok in Ht as (Hle & Hall & Hn).
  exists (t - 1). split; [reflexivity|]. split; [lia|]. split; [|split].
  - intros i Hi. apply Hall. lia.
  - by replace (t - 1 + 1) with t by lia.
  - intros H1. destruct (decide (t = 1)) as [->|Hne]; [reflexivity|].
    destruct (Hall 1) as [e He]; [lia|]. congruence.
Qed.

(** ** One [try] block *)

Lemma contains_key (tbl : gmap Z string) (w : number) (k : Z) :
  number_key w = Some k -> contains tbl w = bool_decide (is_Some (tbl !! k)).
Proof.
  unfold number_key, contains.
  destruct w as [z|[s| | |s m e]];
    cbn -[Float64.eqb_Z Float64.trunc Float64.gtb_zero]; try discriminate.
  - rewrite Z.eqb_refl. destruct (0 <? z); [|discriminate]. by intros [= ->].
  - destruct (Float64.eqb_Z (Float64.trunc s m e) (S754_finite s m e));
      [|discriminate].
    destruct (Float64.gtb_zero _); [|discriminate]. by intros [= ->].
Qed.

Lemma contains_int (tbl : gmap Z string) (w : number) :
  contains tbl w = true -> exists k, py_int w = Ok k.
Proof.
  destruct w as [z|[s| | |s m e]]; simpl; eauto; discriminate.
Qed.

Lemma record_ok (tbl tbl' : gmap Z string) (v : pyval) (i : inst) :
  record tbl v (i_a i) (i_b i) (i_c i) (i_d i) (i_op1 i) (i_op2 i) (i_op3 i)
    (i_shape i) = Ok tbl' ->
  (exists k, py_int (decode v) = Ok k) /\
  tbl' = match key_of v with
         | Some k =>
             match tbl !! k with
             | Some _ => tbl
             | None => <[k := inst_format i]> tbl
             end
         | None => tbl
         end.
Proof.
  unfold record, key_of. cbv zeta. generalize (decode v). intros w.
  destruct (number_key w) as [k|] eqn:Hk.
  - rewrite (contains_key tbl w k Hk).
    unfold number_key in Hk. destruct (py_int w) as [k'|e]; [|discriminate].
    simpl. destruct (int_eqb k' w); [|discriminate].
    destruct (gt_zero w); [|discriminate].
    injection Hk as ->.
    case_bool_decide as Hin.
    + intros [= <-]. split; [eauto|]. destruct Hin as [e ->]. reflexivity.
    + intros [= <-]. split; [eauto|].
      apply eq_None_not_Some in Hin. rewrite Hin. reflexivity.
  - destruct (contains tbl w) eqn:Hc.
    + intros [= <-]. split; [by eapply contains_int | reflexivity].
    + unfold number_key in Hk. destruct (py_int w) as [k'|e]; simpl; [|discriminate].
      destruct (int_eqb k' w); [|intros [= <-]; eauto].
      destruct (gt_zero w); [discriminate|]. intros [= <-]. eauto.
Qed.

Lemma record_total (tbl : gmap Z string) (v : pyval) (k : Z) (i : inst) :
  py_int (decode v) = Ok k ->
  exists tbl', record tbl v (i_a i) (i_b i) (i_c i) (i_d i) (i_op1 i) (i_op2 i)
                 (i_op3 i) (i_shape i) = Ok tbl'.
Proof.
  intros Hk. unfold record. cbv zeta. destruct (contains tbl _); [eauto|].
  rewrite Hk. simpl. destruct (int_eqb k _); [|eauto]. destruct (gt_zero _); eauto.
Qed.

(** What the body of a block raises comes from [int(target)]. *)
Lemma record_raise (tbl : gmap Z string) (v : pyval) (i : inst) (e : exn) :
  record tbl v (i_a i) (i_b i) (i_c i) (i_d i) (i_op1 i) (i_op2 i) (i_op3 i)
    (i_shape i) = Raise e ->
  e = OverflowError \/ e = ValueError.
Proof.
  unfold record. cbv zeta. generalize (decode v). intros w.
  destruct (contains tbl w); [discriminate|].
  destruct w as [z|[s|s| |s m x]]; cbn -[int_eqb gt_zero];
    try (destruct (int_eqb _ _); [destruct (gt_zero _)|]; discriminate).
  - intros [= <-]. by left.
  - intros [= <-]. by right.
Qed.

Lemma inst_attempt_ok (tbl tbl' : gmap Z string) (i : inst) :
  inst_attempt tbl i = Ok tbl' -> benign i = true /\ tbl' = step tbl i.
Proof.
  unfold inst_attempt, attempt, benign, step, hit.
  fold (inst_evaluate i). destruct (inst_evaluate i) as [v|e]; simpl.
  - destruct (record tbl v _ _ _ _ _ _ _ _) as [t|e] eqn:Hr.
    + intros [= <-]. apply record_ok in Hr as [[k ->] ->]. done.
    + apply record_raise in Hr as [-> | ->]; discriminate.
  - destruct e; try discriminate. by intros [= <-].
Qed.

Lemma inst_attempt_benign (tbl : gmap Z string) (i : inst) :
  benign i = true -> inst_attempt tbl i = Ok (step tbl i).
Proof.
  intros Hb.
  destruct (inst_attempt tbl i) as [t|e] eqn:H.
  - apply inst_attempt_ok in H as [_ ->]. reflexivity.
  - exfalso. revert H Hb. unfold inst_attempt, attempt, benign.
    fold (inst_evaluate i). destruct (inst_evaluate i) as [v|e']; simpl.
    + destruct (py_int (decode v)) as [k|e'] eqn:Hk; [|discriminate].
      destruct (record_total tbl v k i Hk) as [t ->]. discriminate.
    + destruct e'; discriminate.
Qed.

(** A division by zero leaves the table as it was. *)
Lemma step_zero_division (tbl : gmap Z string) (i : inst) :
  inst_evaluate i = Raise ZeroDivisionError -> step tbl i = tbl.
Proof. unfold step, hit. by intros ->. Qed.

(** An entry once made stays. *)
Lemma step_keeps (tbl : gmap Z string) (i : inst) (k : Z) (e : string) :
  tbl !! k = Some e -> step tbl i !! k = Some e.
Proof.
  intros H. unfold step. destruct (hit i) as [k'|]; [|exact H].
  destruct (tbl !! k') as [e'|] eqn:Hk'; [exact H|].
  rewrite lookup_insert_ne; [exact H | congruence].
Qed.

Lemma step_lookup (tbl : gmap Z string) (i : inst) (k : Z) :
  step tbl i !! k =
    match tbl !! k with
    | Some e => Some e
    | None => if decide (hit i = Some k) then Some (inst_format i) else None
    end.
Proof.
  destruct (tbl !! k) as [e|] eqn:H; [by apply step_keeps|].
  unfold step. case_decide as Hh.
  - rewrite Hh, H. apply lookup_insert_eq.
  - destruct (hit i) as [k'|]; [|exact H].
    destruct (tbl !! k') eqn:Hk'; [exact H|].
    rewrite lookup_insert_ne; [exact H | congruence].
Qed.

(** ** The table of a digit set *)

Lemma for_each_ok_mono {A S : Type} (f g : S -> A -> result S) (l : list A) (s t : S) :
  (forall s x t, x ∈ l -> f s x = Ok t -> g s x = Ok t) ->
  for_each f l s = Ok t -> for_each g l s = Ok t.
Proof.
  revert s. induction l as [|x l IH]; intros s H; simpl; [done|].
  destruct (f s x) as [s1|e] eqn:Hf; simpl; [|discriminate].
  rewrite (H s x s1 (list_elem_of_here _ _) Hf). simpl.
  apply IH. intros s' y t' Hy. apply H. by apply list_elem_of_further.
Qed.

Lemma instances_of_loop (a b c d : Z) (tbl : gmap Z string) :
  for_each (fun tbl '(op1, op2, op3) =>
      for_each (attempt a b c d op1 op2 op3) shapes tbl) (product3 ops_all) tbl
  = for_each inst_attempt (instances_of [a; b; c; d]) tbl.
Proof.
  unfold instances_of. rewrite for_each_flat_map.
  apply for_each_ext. intros s [[o1 o2] o3] _. rewrite for_each_map. reflexivity.
Qed.

(** The nested loops visit [instances digit_set] in order. *)
Lemma targets_by_expression_instances (digit_set : list Z) (tbl : gmap Z string) :
  targets_by_expression digit_set = Ok tbl ->
  for_each inst_attempt (instances digit_set) ∅ = Ok tbl.
Proof.
  unfold targets_by_expression, instances. rewrite for_each_flat_map.
  apply for_each_ok_mono. intros s p t _.
  destruct p as [|a [|b [|c [|d [|]]]]]; try discriminate.
  by rewrite instances_of_loop.
Qed.

Lemma for_each_attempt_steps (l : list inst) (tbl tbl' : gmap Z string) :
  for_each inst_attempt l tbl = Ok tbl' ->
  Forall (fun i => benign i = true) l /\ tbl' = foldl step tbl l.
Proof.
  revert tbl. induction l as [|i l IH]; intros tbl; simpl.
  - intros [= <-]. by split.
  - destruct (inst_attempt tbl i) as [t|e] eqn:Hi; simpl; [|discriminate].
    apply inst_attempt_ok in Hi as [Hb ->]. intros H.
    apply IH in H as [Hall ->]. split; [by constructor | reflexivity].
Qed.

Lemma foldl_step_keeps (l : list inst) (tbl : gmap Z string) (k : Z) (e : string) :
  tbl !! k = Some e -> foldl step tbl l !! k = Some e.
Proof.
  revert tbl. induction l as [|i l IH]; intros tbl H; simpl; [exact H|].
  by apply IH, step_keeps.
Qed.

Lemma foldl_step_lookup (l : list inst) (tbl : gmap Z string) (k : Z) :
  foldl step tbl l !! k =
    match tbl !! k with
    | Some e => Some e
    | None => (fun p => inst_format p.2) <$> list_find (fun i => hit i = Some k) l
    end.
Proof.
  revert tbl. induction l as [|i l IH]; intros tbl; simpl.
  - by destruct (tbl !! k).
  - rewrite IH, step_lookup. destruct (tbl !! k) as [e|]; [reflexivity|].
    case_decide; simpl; [reflexivity|].
    by destruct (list_find _ l) as [[n j]|].
Qed.

(** C8: the table is first-write-wins.  An entry present after any part of
    the enumeration is still there, unchanged, at its end; hence the string
    recorded for a target is the one of the first instance, in the order
    permutations, operator triples, shapes, whose value is that target. *)
Theorem first_write_wins (digit_set : list Z) (tbl : gmap Z string) :
  targets_by_expression digit_set = Ok tbl ->
  (forall done todo t k e,
      instances digit_set = done ++ todo ->
      for_each inst_attempt done ∅ = Ok t ->
      t !! k = Some e -> tbl !! k = Some e) /\
  (forall k,
      tbl !! k = (fun p => inst_format p.2) <$>
                   list_find (fun i => hit i = Some k) (instances digit_set)).
Proof.
  intros H. apply targets_by_expression_instances in H. split.
  - intros done todo t k e Hsplit Hdone Hk.
    rewrite Hsplit, for_each_app, Hdone in H. simpl in H.
    apply for_each_attempt_steps in H as [_ ->]. by apply foldl_step_keeps.
  - intros k. apply for_each_attempt_steps in H as [_ ->].
    rewrite foldl_step_lookup. by rewrite lookup_empty.
Qed.

(** ** Permutations and combinations *)

Lemma picks_perm {A : Type} (l : list A) (x : A) (rest : list A) :
  (x, rest) ∈ picks l -> l ≡ₚ x :: rest.
Proof.
  revert x rest. induction l as [|y l IH]; intros x rest H; simpl in H.
  - by apply elem_of_nil in H.
  - apply elem_of_cons in H as [[= -> ->]|H]; [reflexivity|].
    apply list_elem_of_fmap in H as ([x' rest'] & [= -> ->] & H). simpl.
    rewrite (IH _ _ H). apply Permutation_swap.
Qed.

Lemma permutations_upto_perm {A : Type} (n : nat) (l p : list A) :
  length l = n -> p ∈ permutations_upto n l -> p ≡ₚ l.
Proof.
  revert l p. induction n as [|n IH]; intros l p Hlen H; simpl in H.
  - apply list_elem_of_singleton in H as ->. by destruct l.
  - apply list_elem_of_In, in_flat_map in H as ([x rest] & Hx & H).
    apply list_elem_of_In in Hx, H. simpl in H.
    apply list_elem_of_fmap in H as (q & -> & Hq).
    apply picks_perm in Hx. rewrite Hx. constructor.
    apply IH; [|exact Hq].
    apply Permutation_length in Hx. simpl in Hx. lia.
Qed.

Lemma permutations_perm {A : Type} (l p : list A) :
  p ∈ permutations l -> p ≡ₚ l.
Proof. by apply permutations_upto_perm. Qed.

Lemma combinations_sublist {A : Type} (l : list A) (r : nat) (c : list A) :
  c ∈ combinations l r -> c `sublist_of` l /\ length c = r.
Proof.
  revert r c. induction l as [|x l IH]; intros r c H; simpl in H.
  - destruct r; [|by apply elem_of_nil in H].
    apply list_elem_of_singleton in H as ->. split; [constructor | reflexivity].
  - destruct r as [|r].
    + apply list_elem_of_singleton in H as ->. split; [apply sublist_nil_l | reflexivity].
    + apply elem_of_app in H as [H|H].
      * apply list_elem_of_fmap in H as (c' & -> & H). apply IH in H as [Hs Hl].
        split; [by constructor | simpl; lia].
      * apply IH in H as [Hs Hl]. split; [by constructor | exact Hl].
Qed.

(** A digit set of the search: four digits from 1 to 9. *)
Lemma digit_set_digits (digit_set : list Z) :
  digit_set ∈ combinations digits_all 4 ->
  length digit_set = 4%nat /\ Forall (fun x => 1 <= x <= 9) digit_set.
Proof.
  intros H. apply combinations_sublist in H as [Hs Hl]. split; [exact Hl|].
  apply Forall_forall. intros x Hx.
  apply (elem_of_sublist _ _ _ Hx) in Hs. clear Hx.
  revert x Hs. apply Forall_forall. unfold digits_all.
  repeat constructor; lia.
Qed.

(** ** Reading back what [format] writes *)

Lemma syms_of_app (s1 s2 : string) :
  syms_of (s1 +:+ s2) = syms_of s1 ++ syms_of s2.
Proof.
  unfold syms_of. induction s1 as [|ch s1 IH]; simpl; [reflexivity|].
  f_equal. exact IH.
Qed.

Lemma syms_of_str (a : Z) : 1 <= a <= 9 -> syms_of (str a) = [Digit a].
Proof.
  intros H.
  assert (Ha : a = 1 \/ a = 2 \/ a = 3 \/ a = 4 \/ a = 5 \/ a = 6 \/ a = 7
               \/ a = 8 \/ a = 9) by lia.
  repeat destruct Ha as [->|Ha]; try subst a; reflexivity.
Qed.

Lemma syms_of_op (o : operator) : syms_of (op_strs o) = [Op o].
Proof. by destruct o. Qed.

Lemma parse_format (a b c d : Z) (op1 op2 op3 : operator) (sh : shape) :
  1 <= a <= 9 -> 1 <= b <= 9 -> 1 <= c <= 9 -> 1 <= d <= 9 ->
  parse (format a b c d op1 op2 op3 sh) = Some (tree a b c d op1 op2 op3 sh).
Proof.
  intros Ha Hb Hc Hd. unfold parse.
  destruct sh; unfold format; cbv zeta;
    rewrite !syms_of_app, !syms_of_op, !syms_of_str by assumption;
    reflexivity.
Qed.

(** ** The instances of a digit set *)

Lemma leaves_tree (a b c d : Z) (op1 op2 op3 : operator) (sh : shape) :
  leaves (tree a b c d op1 op2 op3 sh) = [a; b; c; d].
Proof. by destruct sh. Qed.

Lemma elem_of_product3 {A : Type} (l : list A) (x y z : A) :
  x ∈ l -> y ∈ l -> z ∈ l -> (x, y, z) ∈ product3 l.
Proof.
  intros Hx Hy Hz. unfold product3.
  apply list_elem_of_In, in_flat_map. exists x. split; [by apply list_elem_of_In|].
  apply in_flat_map. exists y. split; [by apply list_elem_of_In|].
  apply list_elem_of_In, list_elem_of_fmap. by exists z.
Qed.

Lemma elem_of_ops_all (o : operator) : o ∈ ops_all.
Proof. unfold ops_all. destruct o; set_solver. Qed.

Lemma elem_of_shapes (sh : shape) : sh ∈ shapes.
Proof. unfold shapes. destruct sh; set_solver. Qed.

Lemma elem_of_instances (digit_set : list Z) (i : inst) :
  i ∈ instances digit_set <->
  [i_a i; i_b i; i_c i; i_d i] ∈ permutations digit_set.
Proof.
  unfold instances. rewrite list_elem_of_In, in_flat_map. split.
  - intros (p & Hp & Hi). apply list_elem_of_In in Hp.
    destruct p as [|a [|b [|c [|d [|]]]]]; try by destruct Hi.
    apply in_flat_map in Hi as (o & _ & Hi).
    apply list_elem_of_In, list_elem_of_fmap in Hi as (sh & -> & _). exact Hp.
  - intros Hp. eexists. split; [apply list_elem_of_In; exact Hp|].
    apply in_flat_map. exists (i_op1 i, i_op2 i, i_op3 i). split.
    + apply list_elem_of_In, elem_of_product3; apply elem_of_ops_all.
    + apply list_elem_of_In, list_elem_of_fmap. exists (i_shape i).
      split; [by destruct i | apply elem_of_shapes].
Qed.

Lemma instances_digits (digit_set : list Z) (i : inst) :
  digit_set ∈ combinations digits_all 4 -> i ∈ instances digit_set ->
  [i_a i; i_b i; i_c i; i_d i] ≡ₚ digit_set /\
  1 <= i_a i <= 9 /\ 1 <= i_b i <= 9 /\ 1 <= i_c i <= 9 /\ 1 <= i_d i <= 9.
Proof.
  intros Hds Hi. apply elem_of_instances, permutations_perm in Hi.
  split; [exact Hi|].
  apply digit_set_digits in Hds as [_ Hall]. rewrite <- Hi in Hall.
  by repeat (apply Forall_cons in Hall as [? Hall]).
Qed.

(** Every entry of a table was written by an instance that hit its key. *)
Lemma entry_instance (digit_set : list Z) (tbl : gmap Z string) (k : Z) (e : string) :
  targets_by_expression digit_set = Ok tbl -> tbl !! k = Some e ->
  exists i, i ∈ instances digit_set /\ hit i = Some k /\ e = inst_format i.
Proof.
  intros H Hk. apply targets_by_expression_instances, for_each_attempt_steps in H
    as [_ ->].
  rewrite foldl_step_lookup, lookup_empty in Hk.
  destruct (list_find _ _) as [[n i]|] eqn:Hf; [|discriminate].
  injection Hk as <-. apply list_find_Some in Hf as (Hn & Hh & _).
  exists i. split; [by eapply list_elem_of_lookup_2 | by split].
Qed.

(** C6: every expression recorded in the table of a digit set reads back
    as a tree whose operands are the four digits of the set, each once: none
    is left out, used twice or joined to another. *)
Theorem digits_used_once (digit_set : list Z) (tbl : gmap Z string) (k : Z) (e : string) :
  digit_set ∈ combinations digits_all 4 ->
  targets_by_expression digit_set = Ok tbl ->
  tbl !! k = Some e ->
  exists t, parse e = Some t /\ leaves t ≡ₚ digit_set /\ length (leaves t) = 4%nat.
Proof.
  intros Hds H Hk.
  destruct (entry_instance _ _ _ _ H Hk) as (i & Hi & _ & ->).
  destruct (instances_digits _ _ Hds Hi) as (Hp & Ha & Hb & Hc & Hd).
  exists (inst_tree i). unfold inst_format, inst_tree.
  rewrite parse_format, leaves_tree by assumption.
  split; [reflexivity|]. split; [exact Hp | reflexivity].
Qed.

(** ** The search *)

Lemma search_cons (ds : list Z) (sets : list (list Z)) (bst : best) :
  search (ds :: sets) bst =
    (tbl ← targets_by_expression ds;
     b ← update_best bst ds tbl;
     search sets b).
Proof.
  unfold search. simpl. by destruct (targets_by_expression ds).
Qed.

Lemma expressions_upto_length (tbl : gmap Z string) (t : Z) (es : list string) :
  expressions_upto tbl t = Ok es ->
  length es = Z.to_nat t /\
  forall i, 0 <= i < t -> es !! Z.to_nat i = tbl !! (i + 1).
Proof.
  unfold expressions_upto.
  assert (G : forall (l : list Z) (s : Z) acc es,
    for_each (fun acc i =>
      match tbl !! (i + 1) with
      | Some e => Ok (acc ++ [e])
      | None => Raise KeyError
      end) (seqZ s (Z.of_nat (length l))) acc = Ok es ->
    exists new, es = acc ++ new /\ length new = length l /\
      forall j, (j < length l)%nat -> new !! j = tbl !! (s + Z.of_nat j + 1)).
  { induction l as [|x l IH]; intros s acc es'.
    - simpl. intros [= <-]. exists []. rewrite app_nil_r.
      repeat split. intros j Hj. simpl in Hj. lia.
    - replace (Z.of_nat (length (x :: l))) with (Z.succ (Z.of_nat (length l)))
        by (simpl; lia).
      rewrite seqZ_cons by lia. rewrite Z.pred_succ. simpl.
      destruct (tbl !! (s + 1)) as [e|] eqn:He; simpl; [|discriminate].
      intros H. apply IH in H as (new & -> & Hlen & Hnew).
      exists (e :: new). rewrite <- app_assoc. split; [reflexivity|].
      split; [simpl; lia|].
      intros [|j] Hj; simpl.
      + rewrite <- He. f_equal. lia.
      + rewrite Hnew by (simpl in Hj; lia). f_equal. lia. }
  intros H. destruct (decide (0 <= t)) as [Ht|Ht].
  - specialize (G (replicate (Z.to_nat t) 0) 0 [] es).
    rewrite length_replicate, Z2Nat.id in G by lia.
    destruct (G H) as (new & -> & Hlen & Hnew). simpl. split; [exact Hlen|].
    intros i Hi. rewrite Hnew by lia. f_equal. lia.
  - rewrite seqZ_nil in H by lia. injection H as <-.
    split; [simpl; lia | intros i Hi; lia].
Qed.

(** The step "update best": the triple changes only for a longer chain. *)
Lemma update_best_ok (bst r : best) (ds : list Z) (tbl : gmap Z string) :
  update_best bst ds tbl = Ok r ->
  exists t, chain_length tbl = Ok t /\
    ((t <= bst.1.2 /\ r = bst) \/
     (bst.1.2 < t /\ r.1.1 = ds /\ r.1.2 = t /\ expressions_upto tbl t = Ok r.2)).
Proof.
  unfold update_best. destruct (chain_length tbl) as [t|e]; simpl; [|discriminate].
  destruct (Z.ltb_spec bst.1.2 t) as [Hlt|Hge].
  - destruct (expressions_upto tbl t) as [es|e] eqn:He; simpl; [|discriminate].
    intros [= <-]. exists t. split; [reflexivity|]. right.
    split; [exact Hlt|]. split; [reflexivity|]. split; [reflexivity | exact He].
  - intros [= <-]. exists t. split; [reflexivity|]. left. split; [exact Hge | reflexivity].
Qed.

Lemma search_ok (sets : list (list Z)) (bst r : best) :
  search sets bst = Ok r ->
  bst.1.2 <= r.1.2 /\
  (forall ds, ds ∈ sets -> exists t, run_length ds = Ok t /\ t <= r.1.2) /\
  (r = bst \/
   exists before after,
     sets = before ++ r.1.1 :: after /\
     run_length r.1.1 = Ok r.1.2 /\
     bst.1.2 < r.1.2 /\
     forall ds, ds ∈ before -> exists t, run_length ds = Ok t /\ t < r.1.2).
Proof.
  revert bst. induction sets as [|ds sets IH]; intros bst H.
  - injection H as <-. split; [lia|]. split; [|by left].
    intros ds Hds. by apply elem_of_nil in Hds.
  - rewrite search_cons in H.
    destruct (targets_by_expression ds) as [tbl|] eqn:Htbl; simpl in H; [|discriminate].
    destruct (update_best bst ds tbl) as [b|] eqn:Hb; simpl in H; [|discriminate].
    apply IH in H as (Hle & Hall & Hfirst).
    apply update_best_ok in Hb as (t & Ht & Hb).
    assert (Hrun : run_length ds = Ok t) by (unfold run_length; by rewrite Htbl).
    assert (Hbt : bst.1.2 <= b.1.2 /\ t <= b.1.2
                  /\ (b = bst \/ (b.1.1 = ds /\ b.1.2 = t /\ bst.1.2 < t))).
    { destruct Hb as [[? ->]|(? & ? & ? & _)]; [|split; [lia|split; [lia|]]].
      - split; [lia|]. split; [lia|]. by left.
      - right. split; [assumption|]. split; assumption. }
    destruct Hbt as (Hb1 & Hb2 & Hb3). split; [lia|]. split.
    + intros ds' Hds'. apply elem_of_cons in Hds' as [->|Hds']; [|by apply Hall].
      exists t. split; [exact Hrun | lia].
    + destruct Hfirst as [->|(before & after & -> & Hr & Hlt & Hbefore)].
      * destruct Hb3 as [->|(Hd & Hn & Hlt)]; [by left|]. right.
        exists [], sets. rewrite Hd, Hn.
        split; [reflexivity|]. split; [exact Hrun|]. split; [exact Hlt|].
        intros ds' Hds'. by apply elem_of_nil in Hds'.
      * right. exists (ds :: before), after. split; [reflexivity|].
        split; [exact Hr|]. split; [lia|].
        intros ds' Hds'. apply elem_of_cons in Hds' as [->|Hds']; [|by apply Hbefore].
        exists t. split; [exact Hrun | lia].
Qed.

(** Every digit set of the search gets its table, and none of its instances
    raises anything but [ZeroDivisionError]. *)
Lemma search_space_tables (digit_set : list Z) :
  digit_set ∈ combinations digits_all 4 ->
  exists tbl, targets_by_expression digit_set = Ok tbl.
Proof.
  intros Hds. pose proof main_value as H. unfold main, search in H.
  destruct (for_each_ok_body _ _ _ _ H _ Hds) as (b1 & b2 & Hb).
  destruct (targets_by_expression digit_set) as [tbl|]; [eauto | discriminate].
Qed.

Lemma search_space_benign (digit_set : list Z) (i : inst) :
  digit_set ∈ combinations digits_all 4 -> i ∈ instances digit_set ->
  benign i = true.
Proof.
  intros Hds Hi. destruct (search_space_tables _ Hds) as [tbl H].
  apply targets_by_expression_instances, for_each_attempt_steps in H as [Hall _].
  rewrite Forall_forall in Hall. by apply Hall.
Qed.

(** ** Values: what is computed against what is meant *)

Lemma Qred_int (z : Z) : Qred (z # 1) = inject_Z z.
Proof. apply Qcanon.Qred_identity. simpl. apply Z.gcd_1_r. Qed.

Lemma call_int (o : operator) (x y : Z) :
  o <> op_truediv ->
  exists z, call o (PInt x) (PInt y) = Ok (PInt z) /\
            exact_op o (inject_Z x) (inject_Z y) = Some (inject_Z z).
Proof.
  intros Ho. destruct o; [| | |done]; eexists; (split; [reflexivity|]);
    unfold exact_op; f_equal; (etransitivity; [|apply Qred_int]);
    apply Qred_complete;
    unfold Qeq, Qminus, Qplus, Qmult, Qopp, inject_Z; simpl; lia.
Qed.

Lemma no_division_ops (i : inst) :
  no_division i = true ->
  i_op1 i <> op_truediv /\ i_op2 i <> op_truediv /\ i_op3 i <> op_truediv.
Proof.
  unfold no_division. by destruct (i_op1 i), (i_op2 i), (i_op3 i).
Qed.

(** Without a division the program computes in [int], exactly. *)
Lemma no_division_exact (i : inst) :
  no_division i = true ->
  exists z, inst_evaluate i = Ok (PInt z) /\ exact (inst_tree i) = Some (inject_Z z).
Proof.
  intros H. apply no_division_ops in H as (H1 & H2 & H3).
  destruct i as [a b c d o1 o2 o3 sh]. simpl in H1, H2, H3.
  unfold inst_evaluate, inst_tree. simpl.
  destruct sh; simpl.
  - destruct (call_int o1 a b H1) as (x & -> & ->). simpl.
    destruct (call_int o2 x c H2) as (y & -> & ->). simpl.
    destruct (call_int o3 y d H3) as (z & -> & ->). eauto.
  - destruct (call_int o1 a b H1) as (x & -> & ->). simpl.
    destruct (call_int o3 c d H3) as (y & -> & ->). simpl.
    destruct (call_int o2 x y H2) as (z & -> & ->). eauto.
  - destruct (call_int o2 b c H2) as (x & -> & ->). simpl.
    destruct (call_int o1 a x H1) as (y & -> & ->). simpl.
    destruct (call_int o3 y d H3) as (z & -> & ->). eauto.
  - destruct (call_int o2 b c H2) as (x & -> & ->). simpl.
    destruct (call_int o3 x d H3) as (y & -> & ->). simpl.
    destruct (call_int o1 a y H1) as (z & -> & ->). eauto.
  - destruct (call_int o3 c d H3) as (x & -> & ->). simpl.
    destruct (call_int o2 b x H2) as (y & -> & ->). simpl.
    destruct (call_int o1 a y H1) as (z & -> & ->). eauto.
Qed.

Lemma key_of_positive (v : pyval) (k : Z) : key_of v = Some k -> 0 < k.
Proof.
  unfold key_of, number_key. generalize (decode v). intros w.
  destruct w as [z|[s| | |s m e]];
    cbn -[Float64.trunc Z.shiftl]; try discriminate.
  - rewrite Z.eqb_refl. destruct (Z.ltb_spec 0 z); [|discriminate].
    by intros [= <-].
  - generalize (Float64.trunc s m e). intros t.
    destruct s; [by destruct (match e with 0 => _ | _ => _ end)|].
    destruct e as [|p|p].
    + destruct (Z.eqb_spec t (Z.pos m)); [|discriminate]. intros [= <-]. lia.
    + destruct (Z.eqb_spec t (Z.pos m ≪ Z.pos p)) as [Ht|]; [|discriminate].
      intros [= <-]. rewrite Ht, Z.shiftl_mul_pow2 by lia.
      pose proof (Z.pow_pos_nonneg 2 (Z.pos p)). nia.
    + destruct (Z.eqb_spec (t ≪ Z.pos p) (Z.pos m)) as [Ht|]; [|discriminate].
      intros [= <-]. rewrite Z.shiftl_mul_pow2 in Ht by lia.
      pose proof (Z.pow_pos_nonneg 2 (Z.pos p)). nia.
Qed.

Lemma exactly_exact (t : expr) (k : Z) :
  exactly t k = true -> exact t = Some (inject_Z k).
Proof.
  unfold exactly. destruct (exact t) as [[n d]|]; [|discriminate].
  cbn [Qnum Qden]. intros H. apply andb_true_iff in H as [Hn Hd].
  apply Z.eqb_eq in Hn. apply Pos.eqb_eq in Hd. by subst.
Qed.

Lemma sound_no_division (i : inst) : no_division i = true -> sound i = true.
Proof.
  intros H. destruct (no_division_exact i H) as (z & Hz & Hex).
  unfold sound, hit. rewrite Hz. unfold key_of, number_key. simpl.
  rewrite Z.eqb_refl. destruct (0 <? z); [|reflexivity].
  unfold exactly. rewrite Hex. simpl. by rewrite Z.eqb_refl.
Qed.

Lemma search_space_sound_inst (digit_set : list Z) (i : inst) :
  digit_set ∈ combinations digits_all 4 -> i ∈ instances digit_set ->
  sound i = true.
Proof.
  intros Hds Hi. pose proof search_space_sound as H.
  rewrite forallb_forall in H. apply list_elem_of_In, H in Hds.
  rewrite forallb_forall in Hds. apply list_elem_of_In, Hds in Hi.
  unfold sound_if_division in Hi.
  destruct (no_division i) eqn:Hn; [by apply sound_no_division | exact Hi].
Qed.

Lemma hit_exact (digit_set : list Z) (i : inst) (k : Z) :
  digit_set ∈ combinations digits_all 4 -> i ∈ instances digit_set ->
  hit i = Some k ->
  0 < k /\ exact (inst_tree i) = Some (inject_Z k).
Proof.
  intros Hds Hi Hk. split.
  - unfold hit in Hk. destruct (inst_evaluate i); [|discriminate].
    by eapply key_of_positive.
  - apply exactly_exact. pose proof (search_space_sound_inst _ _ Hds Hi) as H.
    unfold sound in H. by rewrite Hk in H.
Qed.

(** ** The claims about values *)

(** C1 fails on the code.  The program evaluates with [operator.truediv],
    in binary64, and tests [int(target) == target] on the rounded value.
    With the digits 1, 3, 4, 7, which the search enumerates, the expression
    7 / (1 + (4 / 3)) is exactly 3; the program computes
    6755399441055745 / 2^51 for it, which is not 3, and does not record it.
    No other expression of these digits is accepted as 3: their table ends
    with the keys 1, 2 and 4 to 10 but without the key 3, and their chain
    has length 2. *)
Lemma exact_integer_rejected :
  let i := Inst 7 1 4 3 op_truediv op_add op_truediv shape5 in
  [1; 3; 4; 7] ∈ combinations digits_all 4 /\
  i ∈ instances [1; 3; 4; 7] /\
  inst_format i = "7 / (1 + (4 / 3))" /\
  exact (inst_tree i) = Some (inject_Z 3) /\
  (exists f, inst_evaluate i = Ok (PFloat f) /\
     Prim2SF f = S754_finite false 6755399441055745 (-51)) /\
  Float64.to_Q (S754_finite false 6755399441055745 (-51))
    = Some (6755399441055745 # 2251799813685248)%Q /\
  ~ (6755399441055745 # 2251799813685248 == inject_Z 3)%Q /\
  hit i = None /\
  exists tbl, targets_by_expression [1; 3; 4; 7] = Ok tbl /\ tbl !! 3 = None /\
    chain_length tbl = Ok 2 /\
    forall k, 4 <= k <= 10 -> is_Some (tbl !! k).
Proof.
  cbv zeta. split; [apply (bool_decide_unpack _); vm_compute; exact I|].
  split; [apply elem_of_instances, (bool_decide_unpack _); vm_compute; exact I|].
  split; [reflexivity|]. split; [reflexivity|].
  split; [eexists; split; vm_compute; reflexivity|].
  split; [vm_compute; reflexivity|].
  split; [unfold Qeq; simpl; lia|]. split; [vm_compute; reflexivity|].
  eexists. split; [vm_compute; reflexivity|].
  split; [vm_compute; reflexivity|]. split; [vm_compute; reflexivity|].
  intros k Hk.
  assert (Hc : k = 4 \/ k = 5 \/ k = 6 \/ k = 7 \/ k = 8 \/ k = 9 \/ k = 10) by lia.
  destruct Hc as [->|[->|[->|[->|[->|[->| ->]]]]]]; vm_compute; eauto.
Qed.

(** C2: there are 126 digit sets, and the search returns the digits
    1, 2, 5, 8 with the chain 1..51. *)
Theorem full_search_result :
  length (combinations digits_all 4) = 126%nat /\
  exists es, main tt = Ok ([1; 2; 5; 8], 51, es) /\ length es = 51%nat.
Proof.
  split; [reflexivity|]. exists expected_expressions.
  split; [exact main_value | reflexivity].
Qed.

(** C3: the best triple is replaced only by a digit set with a strictly
    longer chain; so the digits returned have a chain at least as long as
    that of each of the 126 digit sets, and they are the first digit set, in
    the order of enumeration, whose chain has that length. *)
Theorem best_is_first_maximum (digits : list Z) (n : Z) (es : list string) :
  main tt = Ok (digits, n, es) ->
  (forall bst ds tbl r, update_best bst ds tbl = Ok r -> r <> bst ->
     exists t, chain_length tbl = Ok t /\ bst.1.2 < t /\ r.1.1 = ds /\ r.1.2 = t) /\
  (forall ds, ds ∈ combinations digits_all 4 ->
     exists t, run_length ds = Ok t /\ t <= n) /\
  exists before after,
    combinations digits_all 4 = before ++ digits :: after /\
    run_length digits = Ok n /\
    forall ds, ds ∈ before -> exists t, run_length ds = Ok t /\ t < n.
Proof.
  intros H. split; [|split].
  - clear H. intros bst ds tbl r Hr Hne.
    apply update_best_ok in Hr as (t & Ht & [[_ Heq]|(Hlt & Hd & Hn & _)]).
    + exfalso. exact (Hne Heq).
    + exists t. split; [exact Ht|]. split; [exact Hlt|]. split; assumption.
  - unfold main in H.
    destruct (search_ok _ _ _ H) as (_ & Hall & _). exact Hall.
  - pose proof main_value as Hv. rewrite H in Hv. unfold main in H.
    destruct (search_ok _ _ _ H) as (_ & _ & [Heq|Hfirst]).
    + rewrite Heq in Hv. discriminate Hv.
    + destruct Hfirst as (before & after & Hsplit & Hrun & _ & Hbefore).
      exists before, after. split; [exact Hsplit|]. split; [exact Hrun | exact Hbefore].
Qed.

Lemma best_is_first_maximum_witness :
  main tt = Ok ([1; 2; 5; 8], 51, expected_expressions) /\
  (forall ds, ds ∈ combinations digits_all 4 ->
     exists t, run_length ds = Ok t /\ t <= 51).
Proof.
  split; [exact main_value|].
  exact (proj1 (proj2 (best_is_first_maximum _ _ _ main_value))).
Defined.

(** C5: the list returned has n entries, and for every i of 1..n its i-th
    entry reads back as an expression whose exact rational value is i. *)
Theorem reported_expressions_exact (digits : list Z) (n : Z) (es : list string) :
  main tt = Ok (digits, n, es) ->
  Z.of_nat (length es) = n /\
  forall i, 1 <= i <= n ->
    exists s t, es !! Z.to_nat (i - 1) = Some s /\ parse s = Some t /\
                exact t = Some (inject_Z i).
Proof.
  intros H. rewrite main_value in H. injection H as <- <- <-.
  split; [reflexivity|]. intros i Hi.
  assert (Hj : exists j : nat, i = Z.of_nat j + 1 /\ (j < 51)%nat)
    by (exists (Z.to_nat (i - 1)); lia).
  destruct Hj as (j & -> & Hj).
  do 51 (destruct j as [|j];
    [eexists _, _; split; [reflexivity|]; split; vm_compute; reflexivity|]).
  lia.
Qed.

Lemma reported_expressions_exact_witness :
  main tt = Ok ([1; 2; 5; 8], 51, expected_expressions) /\
  exists s t, expected_expressions !! Z.to_nat (20 - 1) = Some s /\
    parse s = Some t /\ exact t = Some (inject_Z 20).
Proof.
  split; [exact main_value|].
  apply (proj2 (reported_expressions_exact _ _ _ main_value) 20). lia.
Defined.

Lemma digits_used_once_witness :
  [1; 2; 3; 4] ∈ combinations digits_all 4 /\
  exists tbl, targets_by_expression [1; 2; 3; 4] = Ok tbl /\
    tbl !! 8 = Some "((1 - 2) + 3) * 4" /\
    exists t, parse "((1 - 2) + 3) * 4" = Some t /\
      leaves t ≡ₚ [1; 2; 3; 4] /\ length (leaves t) = 4%nat.
Proof.
  assert (H : [1; 2; 3; 4] ∈ combinations digits_all 4).
  { apply (bool_decide_unpack _). vm_compute. exact I. }
  split; [exact H|]. eexists. split; [vm_compute; reflexivity|].
  split; [vm_compute; reflexivity|].
  eapply (digits_used_once [1; 2; 3; 4] _ 8 _ H); vm_compute; reflexivity.
Defined.

(** C7: in the search no instance raises anything but a division by zero,
    whatever the table every [try] block ends normally, and a block whose
    evaluation divides by zero leaves the table as it was. *)
Theorem zero_division_only (digit_set : list Z) (a b c d : Z)
    (op1 op2 op3 : operator) (sh : shape) (tbl : gmap Z string) :
  digit_set ∈ combinations digits_all 4 ->
  [a; b; c; d] ∈ permutations digit_set ->
  (forall e, evaluate a b c d op1 op2 op3 sh = Raise e -> e = ZeroDivisionError) /\
  exists tbl', attempt a b c d op1 op2 op3 tbl sh = Ok tbl' /\
    (forall e, evaluate a b c d op1 op2 op3 sh = Raise e -> tbl' = tbl).
Proof.
  intros Hds Hp. set (i := Inst a b c d op1 op2 op3 sh).
  assert (Hi : i ∈ instances digit_set) by by apply elem_of_instances.
  pose proof (search_space_benign _ _ Hds Hi) as Hb.
  change (evaluate a b c d op1 op2 op3 sh) with (inst_evaluate i).
  change (attempt a b c d op1 op2 op3 tbl sh) with (inst_attempt tbl i).
  split.
  - intros e He. unfold benign in Hb. rewrite He in Hb. by destruct e.
  - exists (step tbl i). split; [by apply inst_attempt_benign|].
    intros e He. apply step_zero_division.
    unfold benign in Hb. rewrite He in Hb. by destruct e.
Qed.

Lemma zero_division_only_witness :
  [1; 2; 3; 4] ∈ combinations digits_all 4 /\
  [4; 1; 2; 3] ∈ permutations [1; 2; 3; 4] /\
  evaluate 4 1 2 3 op_truediv op_add op_sub shape4 = Raise ZeroDivisionError /\
  exists tbl', attempt 4 1 2 3 op_truediv op_add op_sub ∅ shape4 = Ok tbl' /\
    (forall e, evaluate 4 1 2 3 op_truediv op_add op_sub shape4 = Raise e ->
       tbl' = ∅).
Proof.
  assert (H : [1; 2; 3; 4] ∈ combinations digits_all 4).
  { apply (bool_decide_unpack _). vm_compute. exact I. }
  assert (Hp : [4; 1; 2; 3] ∈ permutations [1; 2; 3; 4]).
  { apply (bool_decide_unpack _). vm_compute. exact I. }
  split; [exact H|]. split; [exact Hp|]. split; [reflexivity|].
  exact (proj2 (zero_division_only [1; 2; 3; 4] 4 1 2 3 op_truediv op_add op_sub
                  shape4 ∅ H Hp)).
Defined.

Lemma first_write_wins_witness :
  exists tbl, targets_by_expression [1; 2; 3; 4] = Ok tbl /\
    tbl !! 8 = (fun p => inst_format p.2) <$>
                 list_find (fun i => hit i = Some 8) (instances [1; 2; 3; 4]).
Proof.
  eexists. split; [vm_compute; reflexivity|].
  eapply (proj2 (first_write_wins [1; 2; 3; 4] _ _)).
  Unshelve. vm_compute. reflexivity.
Defined.

(** C9: the program ends with a report.  The loops run over finite lists;
    the scan from any start ends for every table; the digits 1, 2, 3, 4 reach
    the target 1; and the search returns a chain of length at least 1, for
    which the report is the text [expected_report]: the five lines of the
    head with the digits 1 < 2 < 5 < 8 and n = 51, and one line for each
    target from 1 to 51 with its expression. *)
Theorem always_reports :
  (forall (tbl : gmap Z string) (t : Z),
     exists n, while_in (S (size tbl)) tbl t = Ok n) /\
  (exists tbl, targets_by_expression [1; 2; 3; 4] = Ok tbl /\ is_Some (tbl !! 1)) /\
  exists r, main tt = Ok r /\ 1 <= r.1.2 /\
    length (report r) = (5 + Z.to_nat r.1.2)%nat /\
    report r = expected_report.
Proof.
  split; [exact while_in_terminates|]. split.
  - eexists. split; [vm_compute; reflexivity|]. vm_compute. eauto.
  - exists expected. split; [exact main_value|]. split; [simpl; lia|].
    split; reflexivity.
Qed.

(** ** Runs *)

(** Distinct function objects have distinct identities; then every look-up
    in [op_strs] finds the text of its operator. *)
Lemma op_str_distinct (ids : identities) (o : operator) :
  Inj (=) (=) ids -> op_str ids o = Ok (op_strs o).
Proof.
  intros Hinj. unfold op_str, op_strs_of.
  destruct o;
    repeat (rewrite lookup_insert_ne by (intros E; apply Hinj in E; discriminate E));
    rewrite lookup_insert_eq; reflexivity.
Qed.

(** Without that, the dict would hold fewer entries and the text would
    change: the model does depend on the identities. *)
Example op_str_shared :
  op_str (fun _ => 0) op_add = Ok "/" /\
  format_of (fun _ => 0) 1 2 5 8 op_add op_add op_truediv shape1
    = Ok "((1 / 2) / 5) / 8".
Proof. split; reflexivity. Qed.

Lemma format_render (a b c d : Z) (op1 op2 op3 : operator) (sh : shape) :
  format a b c d op1 op2 op3 sh
  = render (str a) (str b) (str c) (str d) (op_strs op1) (op_strs op2) (op_strs op3) sh.
Proof. by destruct sh. Qed.

Lemma format_of_distinct (ids : identities) (a b c d : Z) (op1 op2 op3 : operator)
    (sh : shape) :
  Inj (=) (=) ids ->
  format_of ids a b c d op1 op2 op3 sh = Ok (format a b c d op1 op2 op3 sh).
Proof.
  intros Hinj. unfold format_of. rewrite !op_str_distinct by exact Hinj.
  simpl. by rewrite format_render.
Qed.

Lemma attempt_of_distinct (ids : identities) (a b c d : Z) (op1 op2 op3 : operator)
    (tbl : gmap Z string) (sh : shape) :
  Inj (=) (=) ids ->
  attempt_of ids a b c d op1 op2 op3 tbl sh = attempt a b c d op1 op2 op3 tbl sh.
Proof.
  intros Hinj. unfold attempt_of, attempt.
  destruct (evaluate a b c d op1 op2 op3 sh) as [target|e]; simpl; [|reflexivity].
  unfold record_of, record. by rewrite format_of_distinct.
Qed.

Lemma targets_by_expression_of_distinct (ids : identities) (digit_set : list Z) :
  Inj (=) (=) ids ->
  targets_by_expression_of ids digit_set = targets_by_expression digit_set.
Proof.
  intros Hinj. unfold targets_by_expression_of, targets_by_expression.
  apply for_each_ext. intros tbl p _.
  destruct p as [|a [|b [|c [|d [|]]]]]; try reflexivity.
  apply for_each_ext. intros tbl' [[op1 op2] op3] _.
  apply for_each_ext. intros tbl'' sh _. by apply attempt_of_distinct.
Qed.

Lemma main_of_distinct (ids : identities) :
  Inj (=) (=) ids -> main_of ids = main tt.
Proof.
  intros Hinj. unfold main_of, main, search_of, search.
  apply for_each_ext. intros bst ds _.
  by rewrite targets_by_expression_of_distinct.
Qed.

(** C10: [main] is deterministic.  It has no input; what two invocations
    can differ in is the identities of the function objects that serve as
    keys of [op_strs].  Whatever they are, as long as distinct objects have
    distinct identities, both invocations return, and return the same
    digits, the same chain length and the same expressions in the same
    order. *)
Theorem main_deterministic (ids1 ids2 : identities) :
  Inj (=) (=) ids1 -> Inj (=) (=) ids2 ->
  exists digits n es,
    main_of ids1 = Ok (digits, n, es) /\ main_of ids2 = Ok (digits, n, es).
Proof.
  intros H1 H2. rewrite (main_of_distinct ids1 H1), (main_of_distinct ids2 H2).
  exists [1; 2; 5; 8], 51, expected_expressions. split; exact main_value.
Qed.

Lemma main_deterministic_witness :
  let ids1 := fun o => match o with
    | op_add => 4096 | op_mul => 4160 | op_sub => 4224 | op_truediv => 4288 end in
  let ids2 := fun o => match o with
    | op_add => 90112 | op_mul => 73728 | op_sub => 81920 | op_truediv => 65536 end in
  exists digits n es,
    main_of ids1 = Ok (digits, n, es) /\ main_of ids2 = Ok (digits, n, es).
Proof.
  cbv zeta. apply main_deterministic; intros [] [] E; (reflexivity || discriminate E).
Defined.

(** * Further properties of the enumeration *)

(** ** What the three iterators visit *)

Lemma combinations_complete {A : Type} (l c : list A) (r : nat) :
  c `sublist_of` l -> length c = r -> c ∈ combinations l r.
Proof.
  intros Hs. revert r. induction Hs as [|x c l Hs IH|x c l Hs IH]; intros r Hr.
  - subst r. simpl. apply list_elem_of_here.
  - subst r. simpl. apply elem_of_app. left.
    apply list_elem_of_fmap. exists c. split; [reflexivity | by apply IH].
  - simpl. destruct r as [|r].
    + destruct c; [apply list_elem_of_here | discriminate].
    + apply elem_of_app. right. by apply IH.
Qed.

(** X1: [combinations(l, r)] yields exactly the subsequences of [l] that
    have [r] elements. *)
Theorem combinations_spec {A : Type} (l c : list A) (r : nat) :
  c ∈ combinations l r <-> c `sublist_of` l /\ length c = r.
Proof.
  split; [apply combinations_sublist|]. intros [Hs Hr]. by apply combinations_complete.
Qed.

Lemma ascending_sublist (n : nat) (lo : Z) (l : list Z) :
  StronglySorted Z.lt l ->
  Forall (fun x => lo <= x < lo + Z.of_nat n) l ->
  l `sublist_of` seqZ lo (Z.of_nat n).
Proof.
  revert lo l. induction n as [|n IH]; intros lo l Hs Hr.
  - destruct l as [|x l]; [constructor|].
    apply Forall_cons in Hr as [Hx _]. lia.
  - rewrite Nat2Z.inj_succ, seqZ_cons by lia. rewrite Z.pred_succ.
    destruct l as [|x l]; [apply sublist_nil_l|].
    apply StronglySorted_inv in Hs as [Hs Hlt].
    apply Forall_cons in Hr as [Hx Hr].
    destruct (decide (x = lo)) as [->|Hne].
    + apply sublist_skip, IH; [exact Hs|].
      apply Forall_forall. intros y Hy.
      rewrite Forall_forall in Hlt, Hr. specialize (Hlt y Hy). specialize (Hr y Hy). lia.
    + apply sublist_cons, IH; [by constructor|].
      constructor; [lia|].
      apply Forall_forall. intros y Hy.
      rewrite Forall_forall in Hlt, Hr. specialize (Hlt y Hy). specialize (Hr y Hy). lia.
Qed.

Lemma digit_sets_ascending :
  forallb (fun ds =>
    match ds with
    | [a; b; c; d] => (1 <=? a) && (a <? b) && (b <? c) && (c <? d) && (d <=? 9)
    | _ => false
    end) (combinations digits_all 4) = true.
Proof. vm_compute. reflexivity. Qed.

(** X2: the outer loop visits the digit sets a < b < c < d of digits
    1..9, all of them, and none twice. *)
Theorem digit_sets_spec :
  (forall ds, ds ∈ combinations digits_all 4 <->
     exists a b c d, ds = [a; b; c; d] /\ 1 <= a /\ a < b /\ b < c /\ c < d /\ d <= 9) /\
  NoDup (combinations digits_all 4).
Proof.
  split.
  - intros ds. split.
    + intros H. pose proof digit_sets_ascending as Hall.
      rewrite forallb_forall in Hall. apply list_elem_of_In, Hall in H.
      destruct ds as [|a [|b [|c [|d [|]]]]]; try discriminate.
      exists a, b, c, d. split; [reflexivity|].
      repeat (apply andb_true_iff in H as [H ?]). lia.
    + intros (a & b & c & d & -> & H1 & H2 & H3 & H4 & H5).
      apply combinations_complete; [|reflexivity].
      change digits_all with (seqZ 1 (Z.of_nat 9)).
      apply ascending_sublist.
      * repeat constructor; lia.
      * repeat constructor; lia.
  - apply (bool_decide_unpack _). vm_compute. exact I.
Qed.

Lemma elem_of_picks {A : Type} (l : list A) (x : A) :
  x ∈ l -> exists rest, (x, rest) ∈ picks l.
Proof.
  induction l as [|y l IH]; intros H; [by apply elem_of_nil in H|].
  apply elem_of_cons in H as [->|H].
  - exists l. simpl. apply list_elem_of_here.
  - destruct (IH H) as [rest Hr]. exists (y :: rest). simpl.
    apply list_elem_of_further, list_elem_of_fmap. by exists (x, rest).
Qed.

Lemma permutations_upto_complete {A : Type} (n : nat) (l p : list A) :
  length l = n -> p ≡ₚ l -> p ∈ permutations_upto n l.
Proof.
  revert l p. induction n as [|n IH]; intros l p Hlen Hp; simpl.
  - destruct l; [|discriminate]. apply Permutation_nil_r in Hp as ->.
    apply list_elem_of_here.
  - destruct p as [|x p].
    { apply Permutation_length in Hp. simpl in Hp. lia. }
    assert (Hx : x ∈ l) by (rewrite <- Hp; apply list_elem_of_here).
    destruct (elem_of_picks l x Hx) as [rest Hr].
    pose proof (picks_perm _ _ _ Hr) as Hl.
    assert (Hrest : p ≡ₚ rest).
    { apply (Permutation_cons_inv (a := x)). by rewrite Hp, Hl. }
    apply list_elem_of_In, in_flat_map. exists (x, rest).
    split; [by apply list_elem_of_In|]. simpl.
    apply list_elem_of_In, list_elem_of_fmap. exists p. split; [reflexivity|].
    apply IH; [|exact Hrest].
    apply Permutation_length in Hl. simpl in Hl. lia.
Qed.

Lemma length_flat_map_const {A B : Type} (f : A -> list B) (l : list A) (k : nat) :
  (forall x, x ∈ l -> length (f x) = k) ->
  length (flat_map f l) = (length l * k)%nat.
Proof.
  induction l as [|x l IH]; intros H; simpl; [reflexivity|].
  rewrite length_app, H by apply list_elem_of_here.
  rewrite IH; [reflexivity|]. intros y Hy. apply H. by apply list_elem_of_further.
Qed.

Lemma length_picks {A : Type} (l : list A) : length (picks l) = length l.
Proof.
  induction l as [|x l IH]; simpl; [reflexivity|]. by rewrite length_map, IH.
Qed.

Lemma length_permutations_upto {A : Type} (n : nat) (l : list A) :
  length l = n -> length (permutations_upto n l) = fact n.
Proof.
  revert l. induction n as [|n IH]; intros l Hlen; simpl; [reflexivity|].
  rewrite (length_flat_map_const _ _ (fact n)).
  - rewrite length_picks, Hlen. simpl. lia.
  - intros [x rest] Hx. simpl. rewrite length_map. apply IH.
    apply picks_perm, Permutation_length in Hx. simpl in Hx. lia.
Qed.

(** X3: [permutations(l)] yields exactly the orderings of [l], and there
    are (length l)! of them: 24 for a digit set. *)
Theorem permutations_spec {A : Type} (l : list A) :
  (forall p, p ∈ permutations l <-> p ≡ₚ l) /\
  length (permutations l) = fact (length l).
Proof.
  split.
  - intros p. split; [apply permutations_perm|].
    by apply permutations_upto_complete.
  - by apply length_permutations_upto.
Qed.

(** X4: [product(l, repeat=3)] yields exactly the triples over [l], and
    there are (length l)^3 of them: 64 operator triples. *)
Theorem product3_spec {A : Type} (l : list A) :
  (forall x y z, (x, y, z) ∈ product3 l <-> x ∈ l /\ y ∈ l /\ z ∈ l) /\
  length (product3 l) = (length l * (length l * length l))%nat.
Proof.
  split.
  - intros x y z. split; [|intros (? & ? & ?); by apply elem_of_product3].
    unfold product3. intros H.
    apply list_elem_of_In, in_flat_map in H as (x' & Hx & H).
    apply in_flat_map in H as (y' & Hy & H).
    apply list_elem_of_In, list_elem_of_fmap in H as (z' & Heq & Hz).
    injection Heq as -> -> ->.
    split; [by apply list_elem_of_In|]. split; [by apply list_elem_of_In | exact Hz].
  - unfold product3.
    rewrite (length_flat_map_const _ _ (length l * length l)); [reflexivity|].
    intros x _. rewrite (length_flat_map_const _ _ (length l)); [reflexivity|].
    intros y _. apply length_map.
Qed.

Lemma length_instances_of (p : list Z) :
  length p = 4%nat -> length (instances_of p) = 320%nat.
Proof.
  intros H. destruct p as [|a [|b [|c [|d [|]]]]]; try discriminate.
  unfold instances_of. rewrite (length_flat_map_const _ _ 5); [reflexivity|].
  intros o _. by rewrite length_map.
Qed.

Lemma length_instances (digit_set : list Z) :
  length digit_set = 4%nat -> length (instances digit_set) = (24 * 320)%nat.
Proof.
  intros H. unfold instances. rewrite (length_flat_map_const _ _ 320).
  - unfold permutations. rewrite length_permutations_upto by reflexivity.
    rewrite H. reflexivity.
  - intros p Hp. apply length_instances_of.
    apply permutations_perm, Permutation_length in Hp. lia.
Qed.

(** X5: a digit set gives 24 * 64 * 5 = 7680 expressions, and the whole
    search 126 * 24 * 64 * 5 = 967680, the count in the source's comment. *)
Theorem expression_count :
  (forall digit_set, length digit_set = 4%nat ->
     Z.of_nat (length (instances digit_set)) = 24 * 64 * 5) /\
  Z.of_nat (length (flat_map instances (combinations digits_all 4)))
    = 126 * 24 * 64 * 5.
Proof.
  split.
  - intros ds H. rewrite (length_instances ds H), Nat2Z.inj_mul. reflexivity.
  - rewrite (length_flat_map_const _ _ (24 * 320)).
    + rewrite !Nat2Z.inj_mul. reflexivity.
    + intros ds Hds. apply length_instances.
      by apply combinations_sublist in Hds as [_ ?].
Qed.

(** ** What a table holds *)

Lemma foldl_step_keys (l : list inst) (tbl : gmap Z string) (k : Z) :
  is_Some (foldl step tbl l !! k) <->
  is_Some (tbl !! k) \/ exists i, i ∈ l /\ hit i = Some k.
Proof.
  rewrite foldl_step_lookup. destruct (tbl !! k) as [e|] eqn:Hk.
  - split; [intros _; left; eauto | eauto].
  - destruct (list_find _ l) as [[n i]|] eqn:Hf; simpl.
    + apply list_find_Some in Hf as (Hn & Hh & _). split; [|eauto].
      intros _. right. exists i. split; [by eapply list_elem_of_lookup_2 | exact Hh].
    + split; [by intros [? ?]|]. intros [[? ?]|(i & Hi & Hh)]; [discriminate|].
      rewrite list_find_None, Forall_forall in Hf. by destruct (Hf i Hi).
Qed.

(** X6: whatever the digits, a target is a key of the table exactly when
    some expression of the enumeration computes to it and passes the test;
    every key is positive and its entry is the text of such an expression. *)
Theorem table_keys (digit_set : list Z) (tbl : gmap Z string) :
  targets_by_expression digit_set = Ok tbl ->
  (forall k, is_Some (tbl !! k) <->
     exists i, i ∈ instances digit_set /\ hit i = Some k) /\
  (forall k e, tbl !! k = Some e ->
     0 < k /\ exists i, i ∈ instances digit_set /\ hit i = Some k /\ e = inst_format i).
Proof.
  intros H. split.
  - intros k.
    destruct (for_each_attempt_steps _ _ _ (targets_by_expression_instances _ _ H))
      as [_ ->].
    rewrite foldl_step_keys, lookup_empty. split; [|eauto].
    intros [[? ?]|?]; [discriminate | assumption].
  - intros k e Hk. destruct (entry_instance _ _ _ _ H Hk) as (i & Hi & Hh & ->).
    split; [|eauto]. unfold hit in Hh.
    destruct (inst_evaluate i); [|discriminate]. by eapply key_of_positive.
Qed.

Lemma table_keys_witness :
  exists tbl, targets_by_expression [1; 2; 3; 4] = Ok tbl /\
    (is_Some (tbl !! 36) <->
     exists i, i ∈ instances [1; 2; 3; 4] /\ hit i = Some 36).
Proof.
  evar (tbl : gmap Z string).
  assert (H : targets_by_expression [1; 2; 3; 4] = Ok tbl)
    by (subst tbl; vm_compute; reflexivity).
  exists tbl. split; [exact H|].
  exact (proj1 (table_keys [1; 2; 3; 4] tbl H) 36).
Defined.

Lemma instances_perm (ds ds' : list Z) (i : inst) :
  ds ≡ₚ ds' -> i ∈ instances ds -> i ∈ instances ds'.
Proof.
  intros Hp Hi. apply elem_of_instances. apply elem_of_instances in Hi.
  apply permutations_upto_complete; [reflexivity|].
  apply permutations_perm in Hi. by rewrite Hi.
Qed.

Lemma while_in_ext (fuel : nat) (tbl tbl' : gmap Z string) (t : Z) :
  (forall k, is_Some (tbl !! k) <-> is_Some (tbl' !! k)) ->
  while_in fuel tbl t = while_in fuel tbl' t.
Proof.
  intros Hkeys. revert t.
  induction fuel as [|fuel IH]; intros t; simpl; [reflexivity|].
  by rewrite IH, (bool_decide_ext _ _ (Hkeys t)).
Qed.

(** X7: the order in which the digits of a set are given does not matter
    to the targets reached: two orderings of the same digits give tables
    with the same keys and the same chain length (the expressions recorded
    may differ). *)
Theorem digit_order_irrelevant (ds ds' : list Z) (tbl tbl' : gmap Z string) :
  ds ≡ₚ ds' ->
  targets_by_expression ds = Ok tbl ->
  targets_by_expression ds' = Ok tbl' ->
  dom tbl = dom tbl' /\ chain_length tbl = chain_length tbl'.
Proof.
  intros Hp H H'.
  destruct (for_each_attempt_steps _ _ _ (targets_by_expression_instances _ _ H))
    as [_ ->].
  destruct (for_each_attempt_steps _ _ _ (targets_by_expression_instances _ _ H'))
    as [_ ->].
  clear H H'.
  assert (Hk : forall k, is_Some (foldl step ∅ (instances ds) !! k) <->
                         is_Some (foldl step ∅ (instances ds') !! k)).
  { intros k. rewrite !foldl_step_keys, lookup_empty. split.
    - intros [[? Hx]|(i & Hi & Hh)]; [discriminate Hx|]. right. exists i.
      split; [by apply (instances_perm ds ds') | exact Hh].
    - intros [[? Hx]|(i & Hi & Hh)]; [discriminate Hx|]. right. exists i.
      split; [by apply (instances_perm ds' ds) | exact Hh]. }
  assert (Hd : dom (foldl step ∅ (instances ds)) = dom (foldl step ∅ (instances ds'))).
  { apply set_eq. intros k. by rewrite !elem_of_dom. }
  split; [exact Hd|]. unfold chain_length.
  rewrite <- !size_dom, Hd. by rewrite (while_in_ext _ _ _ _ Hk).
Qed.

Lemma digit_order_irrelevant_witness :
  exists tbl tbl',
    [1; 2; 3; 4] ≡ₚ [4; 3; 2; 1] /\
    targets_by_expression [1; 2; 3; 4] = Ok tbl /\
    targets_by_expression [4; 3; 2; 1] = Ok tbl' /\
    dom tbl = dom tbl' /\ chain_length tbl = chain_length tbl'.
Proof.
  assert (Hp : [1; 2; 3; 4] ≡ₚ [4; 3; 2; 1]).
  { apply (bool_decide_unpack _). vm_compute. exact I. }
  evar (tbl : gmap Z string). evar (tbl' : gmap Z string).
  assert (H : targets_by_expression [1; 2; 3; 4] = Ok tbl)
    by (subst tbl; vm_compute; reflexivity).
  assert (H' : targets_by_expression [4; 3; 2; 1] = Ok tbl')
    by (subst tbl'; vm_compute; reflexivity).
  exists tbl, tbl'. split; [exact Hp|]. split; [exact H|]. split; [exact H'|].
  exact (digit_order_irrelevant [1; 2; 3; 4] [4; 3; 2; 1] tbl tbl' Hp H H').
Defined.

Lemma size_step (tbl : gmap Z string) (i : inst) :
  (size (step tbl i) <= S (size tbl))%nat.
Proof.
  unfold step. destruct (hit i) as [k|]; [|lia].
  destruct (tbl !! k) eqn:Hk; [lia|]. by rewrite map_size_insert_None.
Qed.

Lemma size_foldl_step (l : list inst) (tbl : gmap Z string) :
  (size (foldl step tbl l) <= size tbl + length l)%nat.
Proof.
  revert tbl. induction l as [|i l IH]; intros tbl; simpl; [lia|].
  specialize (IH (step tbl i)). pose proof (size_step tbl i). lia.
Qed.

(** X8: the chain is never longer than the table, and the table never
    has more entries than expressions were tried. *)
Theorem chain_and_table_bounds (digit_set : list Z) (tbl : gmap Z string) (n : Z) :
  targets_by_expression digit_set = Ok tbl ->
  chain_length tbl = Ok n ->
  0 <= n <= Z.of_nat (size tbl) /\
  (size tbl <= length (instances digit_set))%nat.
Proof.
  intros H Hn. split.
  - unfold chain_length in Hn.
    destruct (while_in (S (size tbl)) tbl 1) as [t|] eqn:Ht; [|discriminate].
    injection Hn as <-. apply while_in_ok in Ht as (Hle & Hall & _).
    split; [lia|].
    assert (Hb : (Z.to_nat (t - 1) <= size tbl)%nat).
    { apply (keys_bounded tbl 1). intros i Hi. apply Hall. lia. }
    lia.
  - destruct (for_each_attempt_steps _ _ _ (targets_by_expression_instances _ _ H))
      as [_ ->].
    pose proof (size_foldl_step (instances digit_set) ∅) as Hs.
    by rewrite map_size_empty in Hs.
Qed.

Lemma chain_and_table_bounds_witness :
  exists tbl,
    targets_by_expression [1; 2; 3; 4] = Ok tbl /\
    chain_length tbl = Ok 28 /\
    0 <= 28 <= Z.of_nat (size tbl) /\
    (size tbl <= length (instances [1; 2; 3; 4]%Z))%nat.
Proof.
  evar (tbl : gmap Z string).
  assert (H : targets_by_expression [1; 2; 3; 4] = Ok tbl)
    by (subst tbl; vm_compute; reflexivity).
  assert (Hn : chain_length tbl = Ok 28) by (subst tbl; vm_compute; reflexivity).
  exists tbl. split; [exact H|]. split; [exact Hn|].
  exact (chain_and_table_bounds [1; 2; 3; 4] tbl 28 H Hn).
Defined.

(** ** The text of an expression *)

Lemma tree_inj (a b c d a' b' c' d' : Z) (o1 o2 o3 o1' o2' o3' : operator)
    (sh sh' : shape) :
  tree a b c d o1 o2 o3 sh = tree a' b' c' d' o1' o2' o3' sh' ->
  Inst a b c d o1 o2 o3 sh = Inst a' b' c' d' o1' o2' o3' sh'.
Proof.
  destruct sh, sh'; simpl; intros H; try discriminate; by injection H as -> -> -> -> -> -> ->.
Qed.

(** X9: the text of an expression tells which expression it is: two
    instances over digits 1..9 that are written the same have the same
    digits in the same places, the same operators and the same shape. *)
Theorem format_injective (i j : inst) :
  Forall (fun x => 1 <= x <= 9) [i_a i; i_b i; i_c i; i_d i] ->
  Forall (fun x => 1 <= x <= 9) [i_a j; i_b j; i_c j; i_d j] ->
  inst_format i = inst_format j -> i = j.
Proof.
  intros Hi Hj H.
  repeat (apply Forall_cons in Hi as [? Hi]). repeat (apply Forall_cons in Hj as [? Hj]).
  assert (Ht : Some (inst_tree i) = Some (inst_tree j)).
  { unfold inst_tree. rewrite <- !parse_format by assumption.
    exact (f_equal parse H). }
  injection Ht as Ht. destruct i, j. by apply tree_inj.
Qed.

Lemma format_injective_witness :
  Forall (fun x => 1 <= x <= 9) [4; 1; 3; 2] /\
  (inst_format (Inst 4 1 3 2 op_mul op_add op_truediv shape3) = "(4 * (1 + 3)) / 2") /\
  Inst 4 1 3 2 op_mul op_add op_truediv shape3
    = Inst 4 1 3 2 op_mul op_add op_truediv shape3.
Proof.
  assert (H : Forall (fun x => 1 <= x <= 9) [4; 1; 3; 2]) by (repeat constructor; lia).
  split; [exact H|]. split; [reflexivity|].
  exact (format_injective (Inst 4 1 3 2 op_mul op_add op_truediv shape3)
           (Inst 4 1 3 2 op_mul op_add op_truediv shape3) H H eq_refl).
Defined.

(** ** The driver *)

Lemma chain_length_nonneg (tbl : gmap Z string) (t : Z) :
  chain_length tbl = Ok t -> 0 <= t.
Proof.
  unfold chain_length.
  destruct (while_in (S (size tbl)) tbl 1) as [n|] eqn:Hn; [|discriminate].
  intros [= <-]. apply while_in_ok in Hn as (Hle & _). lia.
Qed.

Lemma expressions_upto_total (tbl : gmap Z string) (t : Z) :
  (forall i, 1 <= i <= t -> is_Some (tbl !! i)) ->
  exists es, expressions_upto tbl t = Ok es.
Proof.
  unfold expressions_upto. intros Hall.
  assert (G : forall (n : nat) (s : Z) (acc : list string),
    (forall i, s + 1 <= i <= s + Z.of_nat n -> is_Some (tbl !! i)) ->
    exists es, for_each (fun acc i =>
      match tbl !! (i + 1) with
      | Some e => Ok (acc ++ [e])
      | None => Raise KeyError
      end) (seqZ s (Z.of_nat n)) acc = Ok es).
  { induction n as [|n IH]; intros s acc Hs.
    - simpl. eauto.
    - rewrite Nat2Z.inj_succ, seqZ_cons by lia. rewrite Z.pred_succ. simpl.
      destruct (Hs (s + 1)) as [e ->]; [lia|]. simpl.
      apply IH. intros i Hi. apply Hs. lia. }
  destruct (decide (0 <= t)) as [Ht|Ht].
  - destruct (G (Z.to_nat t) 0 []) as [es Hes].
    + intros i Hi. apply Hall. lia.
    + rewrite Z2Nat.id in Hes by lia. eauto.
  - rewrite seqZ_nil by lia. simpl. eauto.
Qed.

(** X10: the step "update best" always ends normally: the scan ends, and
    the look-ups [tbl[i+1]] for i below the chain length never miss, so no
    [KeyError]; and the chain length of the best never goes down. *)
Theorem update_best_total (bst : best) (digit_set : list Z) (tbl : gmap Z string) :
  exists r, update_best bst digit_set tbl = Ok r /\ bst.1.2 <= r.1.2.
Proof.
  unfold update_best, chain_length.
  destruct (while_in_terminates tbl 1) as [t Ht]. rewrite Ht. simpl.
  apply while_in_ok in Ht as (Hle & Hall & _).
  destruct (Z.ltb_spec bst.1.2 (t - 1)) as [Hlt|Hge].
  - destruct (expressions_upto_total tbl (t - 1)) as [es ->].
    + intros i Hi. apply Hall. lia.
    + simpl. eexists. split; [reflexivity|]. simpl. lia.
  - eexists. split; [reflexivity|]. lia.
Qed.

(** X11: the driver has no failure of its own: when the search over a list
    of digit sets raises, the enumeration of one of the sets raised it. *)
Theorem search_raises (sets : list (list Z)) (bst : best) (e : exn) :
  search sets bst = Raise e ->
  exists ds, ds ∈ sets /\ targets_by_expression ds = Raise e.
Proof.
  revert bst. induction sets as [|ds sets IH]; intros bst H; [discriminate|].
  rewrite search_cons in H.
  destruct (targets_by_expression ds) as [tbl|e'] eqn:Htbl; simpl in H.
  - destruct (update_best_total bst ds tbl) as (b & Hb & _). rewrite Hb in H.
    simpl in H. destruct (IH b H) as (ds' & Hin & Hds').
    exists ds'. split; [by apply list_elem_of_further | exact Hds'].
  - injection H as ->. exists ds. split; [apply list_elem_of_here | exact Htbl].
Qed.

Lemma search_raises_witness :
  search [[1; 2; 3]] ([0; 0; 0; 0], 0, []) = Raise ValueError /\
  exists ds, ds ∈ [[1; 2; 3]] /\ targets_by_expression ds = Raise ValueError.
Proof.
  assert (H : search [[1; 2; 3]] ([0; 0; 0; 0], 0, []) = Raise ValueError)
    by reflexivity.
  split; [exact H|]. exact (search_raises _ _ _ H).
Defined.

(** X12: what the driver returns is either the triple it started from or
    a digit set of the list with that set's own chain length and, in order,
    the entries of that set's table for the targets 1, 2, ..., n. *)
Theorem search_result (sets : list (list Z)) (bst r : best) :
  search sets bst = Ok r ->
  r = bst \/
  (r.1.1 ∈ sets /\
   exists tbl, targets_by_expression r.1.1 = Ok tbl /\
     chain_length tbl = Ok r.1.2 /\
     Z.of_nat (length r.2) = r.1.2 /\
     forall i, 0 <= i < r.1.2 -> r.2 !! Z.to_nat i = tbl !! (i + 1)).
Proof.
  revert bst. induction sets as [|ds sets IH]; intros bst H.
  - injection H as <-. by left.
  - rewrite search_cons in H.
    destruct (targets_by_expression ds) as [tbl|] eqn:Htbl; simpl in H; [|discriminate].
    destruct (update_best bst ds tbl) as [b|] eqn:Hb; simpl in H; [|discriminate].
    destruct (IH b H) as [->|(Hin & Hrest)].
    + apply update_best_ok in Hb as (t & Ht & [[_ ->]|(_ & Hd & Hn & Hes)]); [by left|].
      right. rewrite Hd, Hn. split; [apply list_elem_of_here|].
      exists tbl. split; [exact Htbl|]. split; [exact Ht|].
      apply expressions_upto_length in Hes as [Hlen Hlook].
      apply chain_length_nonneg in Ht. split; [lia | exact Hlook].
    + right. split; [by apply list_elem_of_further | exact Hrest].
Qed.

Lemma search_result_witness :
  exists r, search [[1; 2; 3; 4]] ([0; 0; 0; 0], 0, []) = Ok r /\
    r.1.1 = [1; 2; 3; 4] /\ r.1.2 = 28 /\
    (r = ([0; 0; 0; 0], 0, []) \/
     (r.1.1 ∈ [[1; 2; 3; 4]] /\
      exists tbl, targets_by_expression r.1.1 = Ok tbl /\
        chain_length tbl = Ok r.1.2 /\
        Z.of_nat (length r.2) = r.1.2 /\
        forall i, 0 <= i < r.1.2 -> r.2 !! Z.to_nat i = tbl !! (i + 1))).
Proof.
  evar (r : best).
  assert (H : search [[1; 2; 3; 4]] ([0; 0; 0; 0], 0, []) = Ok r)
    by (subst r; vm_compute; reflexivity).
  exists r. split; [exact H|]. split; [reflexivity|]. split; [reflexivity|].
  exact (search_result _ _ _ H).
Defined.

(** X13: started from the triple (0, 0, 0, 0), 0, [], the driver returns
    that triple exactly when no digit set of the list reaches the target 1;
    the chain length it returns is never negative. *)
Theorem search_nothing_found (sets : list (list Z)) (r : best) :
  search sets ([0; 0; 0; 0], 0, []) = Ok r ->
  0 <= r.1.2 /\
  (r = ([0; 0; 0; 0], 0, []) <-> forall ds, ds ∈ sets -> run_length ds = Ok 0).
Proof.
  intros H. destruct (search_ok _ _ _ H) as (Hle & Hall & Hfirst). simpl in Hle.
  split; [exact Hle|]. split.
  - intros -> ds Hds. destruct (Hall ds Hds) as (t & Ht & Hle'). simpl in Hle'.
    assert (0 <= t).
    { unfold run_length in Ht. destruct (targets_by_expression ds); [|discriminate].
      by eapply chain_length_nonneg. }
    rewrite Ht. f_equal. lia.
  - intros Hzero. destruct Hfirst as [->|(before & after & Hs & Hr & Hlt & _)];
      [reflexivity|]. simpl in Hlt.
    rewrite Hzero in Hr by (rewrite Hs; apply elem_of_app; right; apply list_elem_of_here).
    injection Hr as Hr. lia.
Qed.

Lemma search_nothing_found_witness :
  (search [[0; 0; 0; 0]] ([0; 0; 0; 0], 0, []) = Ok ([0; 0; 0; 0], 0, []) /\
   (([0; 0; 0; 0], 0, []) = (([0; 0; 0; 0], 0, []) : best) <->
    forall ds : list Z, ds ∈ [[0; 0; 0; 0]] -> run_length ds = Ok 0)) /\
  exists r, search [[0; 0; 0; 0]; [1; 2; 3; 4]] ([0; 0; 0; 0], 0, []) = Ok r /\
    r.1.1 = [1; 2; 3; 4] /\ r.1.2 = 28 /\
    (r = ([0; 0; 0; 0], 0, []) <->
     forall ds : list Z, ds ∈ [[0; 0; 0; 0]; [1; 2; 3; 4]] -> run_length ds = Ok 0).
Proof.
  split.
  - assert (H : search [[0; 0; 0; 0]] ([0; 0; 0; 0], 0, []) = Ok ([0; 0; 0; 0], 0, []))
      by (vm_compute; reflexivity).
    split; [exact H|]. exact (proj2 (search_nothing_found _ _ H)).
  - evar (r : best).
    assert (H : search [[0; 0; 0; 0]; [1; 2; 3; 4]] ([0; 0; 0; 0], 0, []) = Ok r)
      by (subst r; vm_compute; reflexivity).
    exists r. split; [exact H|]. split; [reflexivity|]. split; [reflexivity|].
    exact (proj2 (search_nothing_found _ _ H)).
Defined.

(** ** The report *)

Lemma enumerate_lookup (es : list string) (s : Z) (i : nat) :
  enumerate s es !! i = (fun e => (s + Z.of_nat i, e)) <$> es !! i.
Proof.
  revert s i. induction es as [|e es IH]; intros s i; [by destruct i|].
  destruct i as [|i]; simpl.
  - do 2 f_equal. lia.
  - rewrite IH. destruct (es !! i); simpl; [|reflexivity]. do 2 f_equal. lia.
Qed.

Lemma length_enumerate (es : list string) (s : Z) :
  length (enumerate s es) = length es.
Proof. revert s. induction es as [|e es IH]; intros s; simpl; [reflexivity|]. by rewrite IH. Qed.

Lemma str_nonempty (z : Z) : (1 <= String.length (str z))%nat.
Proof.
  unfold str. destruct z as [|p|p]; simpl; [lia| |lia].
  unfold NilZero.string_of_uint. destruct (Pos.to_uint p); simpl; lia.
Qed.

(** X14: the report of a result with four digits.  Its head is five
    lines: three fixed ones, the digits joined by " < ", and n.  Then comes
    one line for each expression: two spaces, the target, " = " and the
    expression, where the target i+1 stands right-aligned in a field of
    width two: a space in front of a number of one character, and the
    number alone when it has two characters or more. *)
Theorem report_lines (a b c d n : Z) (es : list string) :
  exists lines,
    report ([a; b; c; d], n, es) =
      [ "Set of 4 digits producing longest consecutive chain of arithmetic expressions targets:";
        "  digits = " +:+ str a +:+ " < " +:+ str b +:+ " < " +:+ str c
          +:+ " < " +:+ str d;
        "Greatest consecutive value reached (1 to `n`):";
        "  n = " +:+ str n;
        "Expressions producing targets:" ] ++ lines /\
    length lines = length es /\
    forall (i : nat) (e : string), es !! i = Some e ->
      exists field,
        lines !! i = Some ("  " +:+ field +:+ " = " +:+ e) /\
        (field = str (Z.of_nat i + 1) \/ field = " " +:+ str (Z.of_nat i + 1)) /\
        String.length field = Nat.max 2 (String.length (str (Z.of_nat i + 1))).
Proof.
  eexists. split; [reflexivity|]. split.
  - by rewrite length_map, length_enumerate.
  - intros i e He. exists (pad2 (Z.of_nat i + 1)). split.
    + rewrite list_lookup_fmap, enumerate_lookup, He. reflexivity.
    + unfold pad2. pose proof (str_nonempty (Z.of_nat i + 1)) as Hlen.
      set (s := str (Z.of_nat i + 1)) in *.
      destruct (Nat.ltb_spec (String.length s) 2) as [Hlt|Hge].
      * split; [by right|]. change (String.length (" " +:+ s)) with (S (String.length s)). lia.
      * split; [by left|]. lia.
Qed.

(** ** Expressions without a division *)

(** X15: whatever the four integers, an expression without a division is
    computed in [int] and never raises; its value is the exact one, and it
    is recorded exactly when that value is positive. *)
Theorem no_division_hit (i : inst) :
  no_division i = true ->
  exists z, inst_evaluate i = Ok (PInt z) /\
    exact (inst_tree i) = Some (inject_Z z) /\
    hit i = (if 0 <? z then Some z else None).
Proof.
  intros H. destruct (no_division_exact i H) as (z & Hz & Hex).
  exists z. split; [exact Hz|]. split; [exact Hex|].
  unfold hit. rewrite Hz. unfold key_of, number_key. simpl.
  by rewrite Z.eqb_refl.
Qed.

Lemma no_division_hit_witness :
  no_division (Inst 12 (-7) 0 5 op_mul op_sub op_add shape2) = true /\
  exists z, inst_evaluate (Inst 12 (-7) 0 5 op_mul op_sub op_add shape2) = Ok (PInt z) /\
    exact (inst_tree (Inst 12 (-7) 0 5 op_mul op_sub op_add shape2)) = Some (inject_Z z) /\
    hit (Inst 12 (-7) 0 5 op_mul op_sub op_add shape2) = (if 0 <? z then Some z else None).
Proof.
  split; [reflexivity|].
  exact (no_division_hit (Inst 12 (-7) 0 5 op_mul op_sub op_add shape2) eq_refl).
Defined.

(** ** A digit set of another size *)

(** X16: the loop unpacks each permutation into four digits: for a digit
    set that has not exactly four, the first permutation already fails to
    unpack and the enumeration raises [ValueError] with nothing recorded. *)
Theorem wrong_size_raises (digit_set : list Z) :
  length digit_set <> 4%nat ->
  targets_by_expression digit_set = Raise ValueError.
Proof.
  intros Hlen. unfold targets_by_expression.
  destruct (permutations digit_set) as [|p ps] eqn:Hp.
  - pose proof (length_permutations_upto (length digit_set) digit_set eq_refl) as Hf.
    fold (permutations digit_set) in Hf. rewrite Hp in Hf. simpl in Hf.
    pose proof (lt_O_fact (length digit_set)). lia.
  - assert (Hin : p ∈ permutations digit_set) by (rewrite Hp; apply list_elem_of_here).
    apply permutations_perm, Permutation_length in Hin.
    simpl. destruct p as [|a [|b [|c [|d [|]]]]]; try reflexivity.
    simpl in Hin. lia.
Qed.

Lemma wrong_size_raises_witness :
  length [1; 2; 3; 4; 5] <> 4%nat /\
  targets_by_expression [1; 2; 3; 4; 5] = Raise ValueError.
Proof.
  assert (H : length [1; 2; 3; 4; 5] <> 4%nat) by (simpl; lia).
  split; [exact H|]. exact (wrong_size_raises [1; 2; 3; 4; 5] H).
Defined.

(** ** What the test accepts *)

(** X17: what the test accepts is exact.  The program computes in [int]
    until the first division and in binary64 afterwards.  For every
    instance of the search: without a division the computed value is the
    exact one; a value that passes the test
    [int(target) == target and target > 0] is the exact value of the
    expression and a positive integer; so every entry of a table is filed
    under the exact value of the expression it holds. *)
Theorem accepted_values_exact (digit_set : list Z) :
  digit_set ∈ combinations digits_all 4 ->
  (forall i, i ∈ instances digit_set -> no_division i = true ->
     exists z, inst_evaluate i = Ok (PInt z) /\
               exact (inst_tree i) = Some (inject_Z z)) /\
  (forall i k, i ∈ instances digit_set -> hit i = Some k ->
     0 < k /\ exact (inst_tree i) = Some (inject_Z k)) /\
  (forall tbl k e, targets_by_expression digit_set = Ok tbl -> tbl !! k = Some e ->
     0 < k /\ exists t, parse e = Some t /\ exact t = Some (inject_Z k)).
Proof.
  intros Hds. split; [|split].
  - intros i _ Hi. by apply no_division_exact.
  - intros i k Hi Hk. by eapply hit_exact.
  - intros tbl k e H Hk.
    destruct (entry_instance _ _ _ _ H Hk) as (i & Hi & Hh & ->).
    destruct (hit_exact _ _ _ Hds Hi Hh) as [Hpos Hex]. split; [exact Hpos|].
    destruct (instances_digits _ _ Hds Hi) as (_ & Ha & Hb & Hc & Hd).
    exists (inst_tree i). split; [by apply parse_format | exact Hex].
Qed.

Lemma accepted_values_exact_witness :
  [1; 2; 3; 4] ∈ combinations digits_all 4 /\
  (forall i k, i ∈ instances [1; 2; 3; 4] -> hit i = Some k ->
     0 < k /\ exact (inst_tree i) = Some (inject_Z k)).
Proof.
  assert (H : [1; 2; 3; 4] ∈ combinations digits_all 4).
  { apply (bool_decide_unpack _). vm_compute. exact I. }
  split; [exact H|]. exact (proj1 (proj2 (accepted_values_exact [1; 2; 3; 4] H))).
Defined.
